(** * SubHunter: the fetch / extract / aggregate pipeline of [main.go]

    A shallow embedding of the core of SubHunter (a crt.sh subdomain
    enumerator) and the properties of its validator, extractor, retrying
    fetcher and batch orchestrator.

    Go strings are byte strings: they are modelled as [string] (a list of
    8-bit [ascii]) and [len] as [String.length]. Console logging ([s.log],
    [s.printResult]) never influences control flow and is left out of the
    functions; what they print is modelled on its own, as the console. *)

From Stdlib Require Import String Ascii List ZArith Lia Bool.
From stdpp Require Import base list gmap strings sorting relations.

Local Open Scope string_scope.
Local Open Scope list_scope.

(** * Part I: the model *)

(** ** The parts of Go's [strings] package used by [main.go] *)

Module strings.

(** The slice expressions [s[n:]] and [s[:n]]. *)
Fixpoint drop (n : nat) (s : string) : string :=
  match n, s with
  | S k, String _ s' => drop k s'
  | _, _ => s
  end.

Fixpoint take (n : nat) (s : string) : string :=
  match n, s with
  | S k, String c s' => String c (take k s')
  | _, _ => EmptyString
  end.

(** [strings.HasPrefix(s, prefix)] *)
Fixpoint HasPrefix (s prefix : string) {struct prefix} : bool :=
  match prefix with
  | EmptyString => true
  | String p prefix' =>
      match s with
      | EmptyString => false
      | String c s' => Ascii.eqb c p && HasPrefix s' prefix'
      end
  end.

(** [strings.TrimPrefix(s, prefix)]: [s[len(prefix):]] when [s] starts with
    [prefix], and [s] itself otherwise. *)
Definition TrimPrefix (s prefix : string) : string :=
  if HasPrefix s prefix then drop (String.length prefix) s else s.

(** [strings.Contains(s, substr)]: [substr] occurs at some offset of [s]. *)
Fixpoint Contains (s substr : string) : bool :=
  HasPrefix s substr ||
  match s with
  | EmptyString => false
  | String _ s' => Contains s' substr
  end.

(** [strings.Split(s, sep)] for a separator of one byte (both call sites of
    [main.go] pass one: ["."] and ["\n"]). [Split "" sep] is [[""]], as in Go. *)
Fixpoint Split (s : string) (sep : ascii) : list string :=
  match s with
  | EmptyString => [EmptyString]
  | String c s' =>
      if Ascii.eqb c sep then EmptyString :: Split s' sep
      else match Split s' sep with
           | [] => [String c EmptyString]
           | p :: ps => String c p :: ps
           end
  end.

(** [strings.Repeat(s, n)], used to build long inputs. *)
Fixpoint Repeat (s : string) (n : nat) : string :=
  match n with
  | O => EmptyString
  | S k => s +:+ Repeat s k
  end.

(** The value of a byte. *)
Definition byte (c : ascii) : N := N_of_ascii c.

Definition in_range (lo hi : N) (c : ascii) : bool :=
  (lo <=? byte c)%N && (byte c <=? hi)%N.

(** ASCII letters and the ASCII part of [strings.ToLower]: bytes ['A'..'Z']
    are moved to ['a'..'z'], every other byte is kept. Go lowers non-ASCII
    text through the Unicode tables; the model covers ASCII text only, and
    the theorems that depend on it say so. *)
Definition is_upper (c : ascii) : bool := in_range 65 90 c.
Definition is_lower (c : ascii) : bool := in_range 97 122 c.
Definition is_digit (c : ascii) : bool := in_range 48 57 c.

Definition lower_byte (c : ascii) : ascii :=
  if is_upper c then ascii_of_N (byte c + 32) else c.

Fixpoint ToLower (s : string) : string :=
  match s with
  | EmptyString => EmptyString
  | String c s' => String (lower_byte c) (ToLower s')
  end.

(** Text made of ASCII bytes only (every byte below [0x80]). *)
Definition is_ascii (c : ascii) : bool := (byte c <? 128)%N.

(** Every byte of [s] satisfies [p]. *)
Fixpoint string_forall (p : ascii -> bool) (s : string) : bool :=
  match s with
  | EmptyString => true
  | String c s' => p c && string_forall p s'
  end.

Definition is_ascii_string (s : string) : bool := string_forall is_ascii s.

(** The first and the last byte of a string, if any. *)
Definition first_byte (s : string) : option ascii :=
  match s with
  | EmptyString => None
  | String c _ => Some c
  end.

Fixpoint last_byte (s : string) : option ascii :=
  match s with
  | EmptyString => None
  | String c EmptyString => Some c
  | String _ s' => last_byte s'
  end.

(** [strings.TrimSpace]: leading and trailing white space removed, where white
    space is what [unicode.IsSpace] accepts, read as UTF-8. One-byte runes:
    tab, line feed, vertical tab, form feed, carriage return, space. *)
Definition is_ascii_space (c : ascii) : bool :=
  in_range 9 13 c || (byte c =? 32)%N.

(** Two-byte white space: U+0085 ([C2 85]) and U+00A0 ([C2 A0]). *)
Definition space2 (c0 c1 : ascii) : bool :=
  (byte c0 =? 194)%N && ((byte c1 =? 133)%N || (byte c1 =? 160)%N).

(** Three-byte white space: U+1680 ([E1 9A 80]), U+2000..U+200A
    ([E2 80 80] .. [E2 80 8A]), U+2028, U+2029 ([E2 80 A8], [E2 80 A9]),
    U+202F ([E2 80 AF]), U+205F ([E2 81 9F]) and U+3000 ([E3 80 80]). *)
Definition space3 (c0 c1 c2 : ascii) : bool :=
  ((byte c0 =? 225)%N && (byte c1 =? 154)%N && (byte c2 =? 128)%N)
  || ((byte c0 =? 226)%N && (byte c1 =? 128)%N
      && (in_range 128 138 c2 || in_range 168 169 c2 || (byte c2 =? 175)%N))
  || ((byte c0 =? 226)%N && (byte c1 =? 129)%N && (byte c2 =? 159)%N)
  || ((byte c0 =? 227)%N && (byte c1 =? 128)%N && (byte c2 =? 128)%N).

(** White-space runes removed from the front of [s]. [two] and [three]
    recognise the encodings in the order the bytes are met, so that the same
    loop serves for the back of a string, read in reverse. *)
Fixpoint trim_front (two : ascii -> ascii -> bool)
    (three : ascii -> ascii -> ascii -> bool) (s : string) : string :=
  match s with
  | EmptyString => s
  | String c0 s1 =>
      if is_ascii_space c0 then trim_front two three s1
      else
        match s1 with
        | EmptyString => s
        | String c1 s2 =>
            if two c0 c1 then trim_front two three s2
            else
              match s2 with
              | EmptyString => s
              | String c2 s3 =>
                  if three c0 c1 c2 then trim_front two three s3 else s
              end
        end
  end.

Definition TrimLeftSpace (s : string) : string := trim_front space2 space3 s.

Definition TrimRightSpace (s : string) : string :=
  String.rev
    (trim_front (fun c0 c1 => space2 c1 c0) (fun c0 c1 c2 => space3 c2 c1 c0)
       (String.rev s)).

Definition TrimSpace (s : string) : string := TrimRightSpace (TrimLeftSpace s).

End strings.

Import strings.

(** ** [sort.Strings]: ascending byte-wise order *)

Module sort.

Definition Strings (l : list string) : list string := merge_sort String.le l.

End sort.

(** ** Validator: [isValidSubdomain] (main.go, lines 107-121) *)

(** The test of the loop over [parts]: a part is rejected when it is empty or
    longer than 63 bytes. *)
Definition part_ok (part : string) : bool :=
  negb (Nat.eqb (String.length part) 0 || Nat.ltb 63 (String.length part)).

Definition isValidSubdomain (subdomain : string) : bool :=
  if Nat.eqb (String.length subdomain) 0 || Nat.ltb 253 (String.length subdomain)
  then false
  else
    let subdomain := TrimPrefix subdomain "*." in
    let parts := Split subdomain "." in
    forallb part_ok parts.

(** ** The regular expression of [extractSubdomains]

    [regexp.MustCompile] builds, for a target [domain], the pattern

      (?i)\b(?:[a-z0-9](?:[a-z0-9-]{0,61}[a-z0-9])?\.)*  QuoteMeta(domain)  \b

    Go's [regexp] returns the leftmost match and, among the matches that
    start there, the one a backtracking engine finds first. A sub-pattern is
    therefore modelled as a function from a position in the text to the list
    of positions where it can end, in the order a backtracking engine tries
    them; the match is the head of that list. The model reads the text byte
    by byte, which is Go's reading of ASCII text. *)

Module regexp.

(** A position in the text: the byte before it (if any) and the rest. *)
Definition cursor : Type := option ascii * string.

Definition remaining (c : cursor) : nat := String.length (snd c).

Definition matcher : Type := cursor -> list cursor.

(** One byte of a class. *)
Definition chr (p : ascii -> bool) : matcher :=
  fun c =>
    match snd c with
    | EmptyString => []
    | String a rest => if p a then [(Some a, rest)] else []
    end.

(** Concatenation [r1 r2]. *)
Definition seq (r1 r2 : matcher) : matcher :=
  fun c => flat_map r2 (r1 c).

(** Greedy [r?]: first with [r], then without. *)
Definition opt (r : matcher) : matcher :=
  fun c => (r c ++ [c])%list.

(** Greedy [r{0,n}]: as many repetitions as possible first. *)
Fixpoint rep_upto (n : nat) (r : matcher) : matcher :=
  fun c =>
    match n with
    | O => [c]
    | S k => (flat_map (rep_upto k r) (r c) ++ [c])%list
    end.

(** Greedy [r*]: one more iteration first, then none. An iteration that
    consumes nothing is not repeated; [fuel] bounds the number of iterations
    by the length of the text, which iterations that consume never exceed
    ([star] below supplies that much). *)
Definition shorter (c c' : cursor) : bool := Nat.ltb (remaining c') (remaining c).

Fixpoint star_fuel (fuel : nat) (r : matcher) : matcher :=
  fun c =>
    match fuel with
    | O => [c]
    | S k => (flat_map (star_fuel k r) (List.filter (shorter c) (r c)) ++ [c])%list
    end.

Definition star (r : matcher) : matcher :=
  fun c => star_fuel (remaining c) r c.

(** [\w] and [\b]: Go's word characters are ASCII letters, digits and [_]. *)
Definition is_word (c : ascii) : bool :=
  is_lower c || is_upper c || is_digit c || Ascii.eqb c "_".

Definition is_word_opt (o : option ascii) : bool :=
  match o with
  | Some c => is_word c
  | None => false
  end.

Definition next_byte (c : cursor) : option ascii := first_byte (snd c).

Definition word_boundary : matcher :=
  fun c => if xorb (is_word_opt (fst c)) (is_word_opt (next_byte c)) then [c] else [].

(** The classes [[a-z0-9]] and [[a-z0-9-]] under [(?i)]. *)
Definition alnum (c : ascii) : bool := is_lower c || is_upper c || is_digit c.
Definition alnum_hyphen (c : ascii) : bool := alnum c || Ascii.eqb c "-".

(** A literal byte under [(?i)]: letters match in either case. *)
Definition fold_eq (x a : ascii) : bool := Ascii.eqb (lower_byte a) (lower_byte x).

(** [QuoteMeta(domain)] under [(?i)]: the bytes of [domain], one after the
    other, each taken literally. *)
Fixpoint literal_fold (lit : string) : matcher :=
  match lit with
  | EmptyString => fun c => [c]
  | String x lit' => seq (chr (fold_eq x)) (literal_fold lit')
  end.

(** [[a-z0-9](?:[a-z0-9-]{0,61}[a-z0-9])?] *)
Definition label : matcher :=
  seq (chr alnum) (opt (seq (rep_upto 61 (chr alnum_hyphen)) (chr alnum))).

(** [(?:label\.)*] *)
Definition labels : matcher := star (seq label (chr (Ascii.eqb "."))).

(** The whole pattern. *)
Definition pattern (domain : string) : matcher :=
  seq word_boundary (seq labels (seq (literal_fold domain) word_boundary)).

(** The match that starts at [c], as its length. *)
Definition match_at (domain : string) (c : cursor) : option nat :=
  match pattern domain c with
  | [] => None
  | c' :: _ => Some (remaining c - remaining c')
  end.

(** The loop of [FindAllString(s, -1)] over the start positions, from left to
    right. [skip] counts the bytes left of the match being stepped over and
    [adjacent] says that the previous match ended at this very position (an
    empty match there is then dropped, as Go does); after an empty match the
    search moves on by one byte. *)
Fixpoint find_all (domain : string) (skip : nat) (adjacent : bool)
    (prev : option ascii) (s : string) : list string :=
  match skip with
  | S k =>
      match s with
      | EmptyString => []
      | String a s' => find_all domain k true (Some a) s'
      end
  | O =>
      match match_at domain (prev, s) with
      | Some (S n) =>
          take (S n) s ::
          match s with
          | EmptyString => []
          | String a s' => find_all domain n true (Some a) s'
          end
      | Some O =>
          ((if adjacent then [] else [EmptyString]) ++
           match s with
           | EmptyString => []
           | String a s' => find_all domain 0 false (Some a) s'
           end)%list
      | None =>
          match s with
          | EmptyString => []
          | String a s' => find_all domain 0 false (Some a) s'
          end
      end
  end.

Definition FindAllString (domain : string) (s : string) : list string :=
  find_all domain 0 false None s.

(** What the pieces of the pattern match, said directly. A label is one
    letter or digit, or two of them around at most 61 letters, digits and
    hyphens. *)
Inductive is_label : string -> Prop :=
  | label_one a :
      alnum a = true -> is_label (String a EmptyString)
  | label_more a u b :
      alnum a = true -> string_forall alnum_hyphen u = true ->
      String.length u <= 61 -> alnum b = true ->
      is_label (String a (u +:+ String b EmptyString)).

(** A run of labels, each followed by a dot. *)
Inductive labels_dot : string -> Prop :=
  | labels_nil : labels_dot EmptyString
  | labels_cons l L :
      is_label l -> labels_dot L -> labels_dot (l +:+ "." +:+ L).

(** [s] is [lit] up to the case of its letters. *)
Fixpoint fold_equal (lit s : string) : bool :=
  match lit, s with
  | EmptyString, EmptyString => true
  | String x lit', String a s' => fold_eq x a && fold_equal lit' s'
  | _, _ => false
  end.

(** The byte before the position reached from [prev] by reading [w]. *)
Fixpoint end_of (prev : option ascii) (w : string) : option ascii :=
  match w with
  | EmptyString => prev
  | String a w' => end_of (Some a) w'
  end.

End regexp.

(** ** Extractor: [extractSubdomains] (main.go, lines 123-149)

    [regexp.MustCompile] is taken to succeed: it panics on a pattern that is
    not valid UTF-8, a case the model leaves out. *)

(** The body of the innermost loop: a match is normalised and, when it passes
    the validator and contains the target, added to the set. *)
Definition add_match (domain : string) (subdomainSet : gset string) (match_ : string)
    : gset string :=
  let subdomain := ToLower (TrimSpace match_) in
  let subdomain := TrimPrefix subdomain "*." in
  if isValidSubdomain subdomain && Contains subdomain domain
  then {[ subdomain ]} ∪ subdomainSet
  else subdomainSet.

Definition add_entry (domain : string) (subdomainSet : gset string) (entry : string)
    : gset string :=
  foldl (add_match domain) subdomainSet (regexp.FindAllString domain entry).

Definition add_nameValue (domain : string) (subdomainSet : gset string)
    (nameValue : string) : gset string :=
  foldl (add_entry domain) subdomainSet (Split nameValue "010").

(** The normal form of a match and the test it must pass, as [add_match]
    computes them. *)
Definition normalise (match_ : string) : string :=
  TrimPrefix (ToLower (TrimSpace match_)) "*.".

Definition accepted (domain subdomain : string) : bool :=
  isValidSubdomain subdomain && Contains subdomain domain.

(** The keys of the map, in the order [sort.Strings] leaves them. *)
Definition sorted_keys (set : gset string) : list string :=
  sort.Strings (elements set).

Definition extractSubdomains (domain : string) (nameValues : list string) : list string :=
  let subdomainSet := foldl (add_nameValue domain) ∅ nameValues in
  sorted_keys subdomainSet.

(** ** The hunter: [SubHunter] and [NewSubHunter] (main.go, lines 45-65) *)

Record SubHunter : Type := mkSubHunter {
  timeout : Z;
  concurrency : Z;
  silent : bool;
  totalFound : Z;
  maxRetries : Z
}.

Definition NewSubHunter (timeout concurrency : Z) (silent : bool) : SubHunter :=
  {| timeout := timeout; concurrency := concurrency; silent := silent;
     totalFound := 0; maxRetries := 3 |}.

Definition set_totalFound (s : SubHunter) (n : Z) : SubHunter :=
  {| timeout := timeout s; concurrency := concurrency s; silent := silent s;
     totalFound := n; maxRetries := maxRetries s |}.

(** ** Resilient fetcher: [queryAPI] (main.go, lines 151-213) *)

Record CRTResponse : Type := { NameValue : string }.

(** What [io.ReadAll(resp.Body)] gives: an error or the body. *)
Inductive ReadResult : Type :=
  | ReadError (msg : string)
  | ReadBody (body : string).

(** What [s.client.Do(req)] gives: an error, or a response with its status
    code and its body still to be read. *)
Inductive DoResult : Type :=
  | DoError (msg : string)
  | DoResponse (StatusCode : Z) (Body : ReadResult).

(** What can go wrong in one attempt: the values recorded in [lastErr]. *)
Inductive failure : Type :=
  | TransportError (msg : string)
  | HTTPStatus (code : Z)
  | BodyReadError (msg : string)
  | HTMLInsteadOfJSON
  | JSONDecodeFailed (msg : string).

(** The errors [queryAPI] returns: the error of [http.NewRequest], or
    [fmt.Errorf("max retries exceeded: %v", lastErr)], which carries
    [lastErr] ([nil], here [None], when no attempt was made). *)
Inductive error : Type :=
  | RequestError (msg : string)
  | MaxRetriesExceeded (lastErr : option failure).

(** What the fetcher does to the outside, in order: it sleeps and it sends
    requests. *)
Inductive event : Type :=
  | Sleep (seconds : Z)
  | Get (url : string).

Definition StatusOK : Z := 200.

Definition crt_url (domain : string) : string :=
  "https://crt.sh/?q=%." +:+ domain +:+ "&output=json".

Section Fetcher.

(** The library calls whose results the fetcher only inspects:
    [json.Unmarshal(body, &results)], giving an error text or the decoded
    records, and [http.NewRequest("GET", url, nil)], giving an error text
    when the URL does not parse. *)
Variable json_Unmarshal : string -> string + list CRTResponse.
Variable http_NewRequest : string -> option string.

(** The remote service, as seen by one call of [queryAPI]: the result of
    its n-th request (counted from 0). *)
Variable net : nat -> DoResult.

(** One pass through the checks that follow [s.client.Do]: the error to be
    recorded in [lastErr], or the decoded records. *)
Definition attempt_result (r : DoResult) : failure + list CRTResponse :=
  match r with
  | DoError msg => inl (TransportError msg)
  | DoResponse code body =>
      if negb (code =? StatusOK)%Z then inl (HTTPStatus code)
      else
        match body with
        | ReadError msg => inl (BodyReadError msg)
        | ReadBody body =>
            if HasPrefix (TrimSpace body) "<" then inl HTMLInsteadOfJSON
            else
              match json_Unmarshal body with
              | inl msg => inl (JSONDecodeFailed msg)
              | inr results => inr results
              end
        end
  end.

(** The retry loop, [left] iterations before [attempt] exceeds
    [s.maxRetries]; [sent] requests were sent and [trace] happened so far. *)
Fixpoint retry_loop (domain : string) (left : nat) (attempt : Z)
    (lastErr : option failure) (sent : nat) (trace : list event)
    : (error + list string) * list event :=
  match left with
  | O => (inl (MaxRetriesExceeded lastErr), trace)
  | S left' =>
      let trace :=
        if (1 <? attempt)%Z then (trace ++ [Sleep attempt])%list else trace in
      match http_NewRequest (crt_url domain) with
      | Some msg => (inl (RequestError msg), trace)
      | None =>
          let trace := (trace ++ [Get (crt_url domain)])%list in
          match attempt_result (net sent) with
          | inl err =>
              retry_loop domain left' (attempt + 1) (Some err) (S sent) trace
          | inr results =>
              (inr (extractSubdomains domain (map NameValue results)), trace)
          end
      end
  end.

Definition queryAPI (s : SubHunter) (domain : string)
    : (error + list string) * list event :=
  retry_loop domain (Z.to_nat (maxRetries s)) 1 None 0 [].

(** ** Domain processor: [processDomain] (main.go, lines 215-244)

    The result ([nil] is the empty list) and the hunter with its counter
    updated. *)
Definition processDomain (s : SubHunter) (domain : string)
    : list string * SubHunter :=
  let domain := ToLower (TrimSpace domain) in
  if String.eqb domain "" then ([], s)
  else
    match fst (queryAPI s domain) with
    | inl _ => ([], s)
    | inr subdomains =>
        let count := Z.of_nat (length subdomains) in
        (subdomains, set_totalFound s (totalFound s + count))
    end.

End Fetcher.

(** The sleeps of a trace, in seconds, and the number of its requests. *)
Definition sleeps (trace : list event) : list Z :=
  flat_map (fun e => match e with Sleep n => [n] | Get _ => [] end) trace.

Definition requests (trace : list event) : nat :=
  length (List.filter (fun e => match e with Get _ => true | Sleep _ => false end) trace).

(** A fetch attempt that succeeds: status 200, a body that is read, does not
    look like HTML and decodes to [results]. *)
Definition succeeds (json_Unmarshal : string -> string + list CRTResponse)
    (r : DoResult) (results : list CRTResponse) : Prop :=
  exists body,
    r = DoResponse StatusOK (ReadBody body) /\
    HasPrefix (TrimSpace body) "<" = false /\
    json_Unmarshal body = inr results.

(** The same with any status from 200 to 299, as C1 words it. *)
Definition succeeds_2xx (json_Unmarshal : string -> string + list CRTResponse)
    (r : DoResult) (results : list CRTResponse) : Prop :=
  exists code body,
    r = DoResponse code (ReadBody body) /\
    (200 <= code < 300)%Z /\
    HasPrefix (TrimSpace body) "<" = false /\
    json_Unmarshal body = inr results.

(** The trace once the back-off that precedes [attempt] is over. *)
Definition backed_off (attempt : Z) (trace : list event) : list event :=
  if (1 <? attempt)%Z then trace ++ [Sleep attempt] else trace.

(** ** Batch orchestrator: [processDomainsFromFile] (main.go, lines 246-315) *)

(** The scanner loop: every line trimmed, the empty ones dropped. *)
Definition load_domains (lines : list string) : list string :=
  List.filter (fun domain => negb (String.eqb domain "")) (map TrimSpace lines).

(** [for _, sub := range subs { allSubdomains[sub] = true }] *)
Definition merge (allSubdomains : gset string) (subs : list string) : gset string :=
  foldl (fun all sub => {[ sub ]} ∪ all) allSubdomains subs.

(** The end of the function: the keys sorted, the counter overwritten. *)
Definition finish (allSubdomains : gset string) (s : SubHunter)
    : list string * SubHunter :=
  let result := sorted_keys allSubdomains in
  (result, set_totalFound s (Z.of_nat (length result))).

(** A goroutine of the concurrent branch, by the point it has reached:
    blocked on [semaphore <- struct{}{}]; holding a slot with [processDomain]
    under way; back from [processDomain] with [subs]; merged under [mu];
    slot released (the deferred [<-semaphore]) and [wg.Done()] called. *)
Inductive task : Type :=
  | Waiting
  | Running
  | Fetched (subs : list string)
  | Merged
  | Finished.

(** The shared state of the concurrent branch: the goroutines, the number of
    tokens in the buffer of the [semaphore] channel, the shared map and the
    hunter. *)
Record pool : Type := mkPool {
  tasks : list task;
  sem : nat;
  allSubdomains : gset string;
  hunter : SubHunter
}.

(** A goroutine between its send to [semaphore] and its receive from it. *)
Definition holds_slot (t : task) : bool :=
  match t with
  | Running | Fetched _ | Merged => true
  | Waiting | Finished => false
  end.

(** A goroutine inside [processDomain], that is, with its fetch in flight. *)
Definition fetching (t : task) : bool :=
  match t with
  | Running => true
  | _ => false
  end.

Definition count (f : task -> bool) (p : pool) : nat :=
  length (List.filter f (tasks p)).

(** A goroutine whose results are in the shared map. *)
Definition merged (t : task) : bool :=
  match t with
  | Merged | Finished => true
  | Waiting | Running | Fetched _ => false
  end.

(** The fields of the hunter that a batch run never writes. *)
Definition config (s : SubHunter) : Z * Z * bool * Z :=
  (timeout s, concurrency s, silent s, maxRetries s).

Section Batch.

Variable json_Unmarshal : string -> string + list CRTResponse.
Variable http_NewRequest : string -> option string.

(** The remote service during one batch run: the result of the n-th
    request made for the i-th domain of the list. *)
Variable nets : nat -> nat -> DoResult.

Definition process (i : nat) (s : SubHunter) (domain : string)
    : list string * SubHunter :=
  processDomain json_Unmarshal http_NewRequest (nets i) s domain.

(** The sequential branch: the domains in order, from index [i] on. *)
Fixpoint seq_loop (i : nat) (domains : list string)
    (allSubdomains : gset string) (s : SubHunter) : gset string * SubHunter :=
  match domains with
  | [] => (allSubdomains, s)
  | domain :: rest =>
      let '(subs, s') := process i s domain in
      seq_loop (S i) rest (merge allSubdomains subs) s'
  end.

(** The concurrent branch, one atomic step of one goroutine at a time.
    [cap] is the capacity of the [semaphore] channel: a send goes through
    when the buffer holds fewer than [cap] tokens and a receive takes one
    of them. [processDomain] touches shared state once, when it adds to
    the counter under [s.mu]. *)
Inductive step (cap : nat) (domains : list string) : pool -> pool -> Prop :=
  | step_acquire i p :
      tasks p !! i = Some Waiting ->
      sem p < cap ->
      step cap domains p
        (mkPool (<[i := Running]> (tasks p)) (S (sem p)) (allSubdomains p) (hunter p))
  | step_fetch i domain subs s' p :
      tasks p !! i = Some Running ->
      domains !! i = Some domain ->
      process i (hunter p) domain = (subs, s') ->
      step cap domains p
        (mkPool (<[i := Fetched subs]> (tasks p)) (sem p) (allSubdomains p) s')
  | step_merge i subs p :
      tasks p !! i = Some (Fetched subs) ->
      step cap domains p
        (mkPool (<[i := Merged]> (tasks p)) (sem p)
           (merge (allSubdomains p) subs) (hunter p))
  | step_release i n p :
      tasks p !! i = Some Merged ->
      sem p = S n ->
      step cap domains p
        (mkPool (<[i := Finished]> (tasks p)) n (allSubdomains p) (hunter p)).

(** One goroutine per domain is started, all of them waiting. *)
Definition start (s : SubHunter) (domains : list string) : pool :=
  mkPool (replicate (length domains) Waiting) 0 ∅ s.

Definition reachable (s : SubHunter) (domains : list string) (p : pool) : Prop :=
  rtc (step (Z.to_nat (concurrency s)) domains) (start s domains) p.

(** [wg.Wait()] returns once every goroutine is done. *)
Definition all_done (p : pool) : Prop := Forall (eq Finished) (tasks p).

(** The concurrent branch returns [res]: [make(chan struct{}, n)] panics
    for a negative [n]; otherwise some interleaving of the goroutines has
    run to completion. *)
Definition concurrent_returns (s : SubHunter) (domains : list string)
    (res : list string * SubHunter) : Prop :=
  (0 <= concurrency s)%Z /\
  exists p, reachable s domains p /\ all_done p /\
            res = finish (allSubdomains p) (hunter p).

(** [processDomainsFromFile] returns [res]. [file] is [None] when the file
    cannot be opened and the lines of the file otherwise. *)
Definition processDomainsFromFile (s : SubHunter) (file : option (list string))
    (concurrent : bool) (res : list string * SubHunter) : Prop :=
  match file with
  | None => res = ([], s)
  | Some lines =>
      let domains := load_domains lines in
      if concurrent && Nat.ltb 1 (length domains)
      then concurrent_returns s domains res
      else
        let '(allSubdomains, s') := seq_loop 0 domains ∅ s in
        res = finish allSubdomains s'
  end.

(** The list [processDomain] returns for each domain of the list, from
    index [i] on. *)
Fixpoint results_from (i : nat) (s : SubHunter) (domains : list string)
    : list (list string) :=
  match domains with
  | [] => []
  | domain :: rest => fst (process i s domain) :: results_from (S i) s rest
  end.

Definition results (s : SubHunter) (domains : list string) : list (list string) :=
  results_from 0 s domains.

(** What every reachable state of the concurrent branch satisfies. *)
Definition pool_inv (s0 : SubHunter) (domains : list string) (p : pool) : Prop :=
  length (tasks p) = length domains /\
  config (hunter p) = config s0 /\
  (forall i subs, tasks p !! i = Some (Fetched subs) ->
                  results s0 domains !! i = Some subs) /\
  (forall x, x ∈ allSubdomains p <->
             exists i t subs, tasks p !! i = Some t /\ merged t = true /\
                              results s0 domains !! i = Some subs /\ x ∈ subs) /\
  count holds_slot p = sem p /\
  sem p <= Z.to_nat (concurrency s0).

End Batch.

(** ** Inputs of the examples *)

(** A label of 63 bytes and a name of 253 bytes made of four labels. *)
Definition label63 : string := Repeat "a" 63.

Definition name253 : string :=
  label63 +:+ "." +:+ label63 +:+ "." +:+ label63 +:+ "." +:+ Repeat "a" 61.

Definition wildcard255 : string := "*." +:+ name253.

(** Stand-ins for the two library calls in the examples: a URL that always
    parses, and a decoder that knows the bodies of the example at hand. *)
Definition url_parses (url : string) : option string := None.

Definition decode_table (table : list (string * list CRTResponse)) (body : string)
    : string + list CRTResponse :=
  match List.find (fun entry => String.eqb (fst entry) body) table with
  | Some entry => inr (snd entry)
  | None => inl "invalid character"
  end.

(** The remote service of the fetcher examples: one that answers every
    request with status 201 and an empty JSON array; one that refuses every
    connection; one that fails once and then answers; one that serves an HTML
    page with status 200. *)
Definition net_created : nat -> DoResult :=
  fun _ => DoResponse 201 (ReadBody "[]").

Definition net_refusing : nat -> DoResult :=
  fun _ => DoError "connection refused".

Definition dq : string := String "034" EmptyString.

(** The JSON text of an array of records with the given [name_value]s. *)
Definition json_record (name_value : string) : string :=
  "{" +:+ dq +:+ "name_value" +:+ dq +:+ ":" +:+ dq +:+ name_value +:+ dq +:+ "}".

Definition json_array (name_values : list string) : string :=
  "[" +:+ String.concat "," (map json_record name_values) +:+ "]".

Definition body_foo : string := json_array ["foo.example.com"].

Definition net_second_try : nat -> DoResult :=
  fun n =>
    match n with
    | O => DoError "timeout"
    | _ => DoResponse 200 (ReadBody body_foo)
    end.

Definition net_html : nat -> DoResult :=
  fun _ => DoResponse 200 (ReadBody "  <html>busy</html>").

Definition decode_example : string -> string + list CRTResponse :=
  decode_table [("[]", []); (body_foo, [ {| NameValue := "foo.example.com" |} ])].

(** A batch of two overlapping domains: [a.com] has the subdomains [x.a.com]
    and [w.x.a.com], and [x.a.com] has [w.x.a.com] again. *)
Definition body_a : string := json_array ["x.a.com"; "w.x.a.com"].
Definition body_xa : string := json_array ["w.x.a.com"].

Definition decode_batch : string -> string + list CRTResponse :=
  decode_table
    [(body_a, [ {| NameValue := "x.a.com" |}; {| NameValue := "w.x.a.com" |} ]);
     (body_xa, [ {| NameValue := "w.x.a.com" |} ])].

Definition nets_batch : nat -> nat -> DoResult :=
  fun i _ =>
    match i with
    | O => DoResponse 200 (ReadBody body_a)
    | _ => DoResponse 200 (ReadBody body_xa)
    end.

Definition lines_batch : list string := ["a.com"; "  "; "x.a.com "].

(** Five domains and two workers, two of the goroutines fetching. *)
Definition five_domains : list string :=
  ["a.com"; "b.com"; "c.com"; "d.com"; "e.com"].

Definition two_fetching : pool :=
  mkPool [Running; Running; Waiting; Waiting; Waiting] 2 ∅ (NewSubHunter 60 2 false).

(** The raw entries of the extractor example: two names in one entry,
    separated by a line feed, an unrelated name and a wildcard name. *)
Definition nl : string := String "010" EmptyString.

Definition raw_example : list string :=
  ["foo.example.com" +:+ nl +:+ "BAR.EXAMPLE.COM"; "not-related.org";
   "*.baz.example.com"].

(** ** Descriptions used in the further properties *)

(** A string the trimming loop leaves as it is. *)
Definition trimmed_front (two : ascii -> ascii -> bool)
    (three : ascii -> ascii -> ascii -> bool) (s : string) : Prop :=
  match s with
  | EmptyString => True
  | String c0 s1 =>
      is_ascii_space c0 = false /\
      match s1 with
      | EmptyString => True
      | String c1 s2 =>
          two c0 c1 = false /\
          match s2 with
          | EmptyString => True
          | String c2 _ => three c0 c1 c2 = false
          end
      end
  end.


(** What [n] attempts in a row do to the outside: a request each, to the
    same URL, with a sleep of [k] seconds before the [k]-th request from the
    second on. *)
Definition schedule (url : string) (n : nat) : list event :=
  flat_map
    (fun i =>
       match i with
       | O => [Get url]
       | S _ => [Sleep (Z.of_nat i + 1); Get url]
       end)
    (List.seq 0 n).

(** The failure left in [lastErr] by [left] failed attempts, the first of
    them on the answer to request number [sent]. *)
Definition last_failure (json_Unmarshal : string -> string + list CRTResponse)
    (net : nat -> DoResult) (lastErr : option failure) (sent left : nat)
    : option failure :=
  match left with
  | O => lastErr
  | S k => match attempt_result json_Unmarshal (net (sent + k)) with
           | inl err => Some err
           | inr _ => lastErr
           end
  end.

(** ** The fetcher of version 1.0.0: [queryAPI] (unnamed/part_000, lines
    147-179)

    One request and no retry: [s.client.Get(url)] builds the request (and
    fails when the URL does not parse) and sends it; every failure is
    returned at once, and a body is handed to the decoder whatever it looks
    like. *)
Module v1.

(** The errors returned: the one of the request that could not be built,
    or the failure of the one attempt ([JSONDecodeFailed] stands for the
    decoder's own error here, returned as it is). *)
Inductive error : Type :=
  | RequestError (msg : string)
  | Failed (err : failure).

Section Fetcher.

Variable json_Unmarshal : string -> string + list CRTResponse.
Variable http_NewRequest : string -> option string.
Variable net : nat -> DoResult.

Definition queryAPI (domain : string) : (error + list string) * list event :=
  match http_NewRequest (crt_url domain) with
  | Some msg => (inl (RequestError msg), [])
  | None =>
      let trace := [Get (crt_url domain)] in
      match net 0 with
      | DoError msg => (inl (Failed (TransportError msg)), trace)
      | DoResponse code body =>
          if negb (code =? StatusOK)%Z then (inl (Failed (HTTPStatus code)), trace)
          else
            match body with
            | ReadError msg => (inl (Failed (BodyReadError msg)), trace)
            | ReadBody body =>
                match json_Unmarshal body with
                | inl msg => (inl (Failed (JSONDecodeFailed msg)), trace)
                | inr results =>
                    (inr (extractSubdomains domain (map NameValue results)), trace)
                end
            end
      end
  end.

End Fetcher.

End v1.

(** How far a goroutine of the concurrent branch is from its end, in steps,
    and the steps all goroutines of a pool still have to take. *)
Definition stage (t : task) : nat :=
  match t with
  | Waiting => 4
  | Running => 3
  | Fetched _ => 2
  | Merged => 1
  | Finished => 0
  end.

Definition rank (p : pool) : nat := list_sum (map stage (tasks p)).

(** ** Saving the result: [saveToFile] (main.go, lines 317-332)

    [os_Create] is the error of [os.Create], if any. The result is the error
    returned and the text handed to the file: every subdomain followed by a
    line feed ([fmt.Fprintln]). The errors of the writer are not looked at by
    the code, and [nil] is returned once the file is there. *)
Definition Fprintln (line : string) : string := line +:+ nl.

Definition written (subdomains : list string) : string :=
  fold_right (fun sub text => Fprintln sub +:+ text) "" subdomains.

Definition saveToFile (os_Create : option string) (subdomains : list string)
    : option string * option string :=
  match os_Create with
  | Some err => (Some err, None)
  | None => (None, Some (written subdomains))
  end.

(** ** Reading a list: the [bufio.Scanner] loop of [processDomainsFromFile]
    (main.go, lines 254-262)

    The tokens of [scanner.Scan()] with the default split function,
    [bufio.ScanLines]: the text between line feeds, each line without one
    trailing carriage return; what follows the last line feed is a line only
    when it is not empty. (A line that does not fit the buffer of the scanner,
    64 KiB, ends the scan; the lines here are far shorter.) *)
Definition dropCR (data : string) : string :=
  match last_byte data with
  | Some c =>
      if Ascii.eqb c "013" then take (String.length data - 1) data else data
  | None => data
  end.

Definition ScanLines (text : string) : list string :=
  let parts := Split text "010" in
  map dropCR
    (if String.eqb (List.last parts "") "" then removelast parts else parts).

(** ** The console: [log], [printResult] (main.go, lines 67-105) and what
    [queryAPI] and [processDomain] print with them

    The console is the list of the texts printed so far, one for each call
    of [fmt.Printf] or [fmt.Println]. *)
Definition esc : string := String "027" EmptyString.
Definition pink : string := esc +:+ "[95m".
Definition dim : string := esc +:+ "[2m".
Definition bold : string := esc +:+ "[1m".
Definition reset : string := esc +:+ "[0m".

Definition icon (level : string) : string :=
  if String.eqb level "info" then pink +:+ "[INF]" +:+ reset
  else if String.eqb level "success" then pink +:+ "[SUC]" +:+ reset
  else if String.eqb level "error" then pink +:+ "[ERR]" +:+ reset
  else if String.eqb level "warn" then pink +:+ "[WAR]" +:+ reset
  else if String.eqb level "found" then pink +:+ "[*]" +:+ reset
  else if String.eqb level "run" then pink +:+ "[>]" +:+ reset
  else if String.eqb level "retry" then pink +:+ "[RTY]" +:+ reset
  else "".

Section Console.

(** Two library calls whose results are only printed: the text of
    [time.Now().Format("15:04:05")] when the console holds [n] texts, and
    the text of an integer under the verb [%d]. *)
Variable now : nat -> string.
Variable itoa : Z -> string.

Variable json_Unmarshal : string -> string + list CRTResponse.
Variable http_NewRequest : string -> option string.
Variable net : nat -> DoResult.

Definition log (s : SubHunter) (console : list string) (level message data : string)
    : list string :=
  if silent s then console
  else
    let timestamp := now (length console) in
    if negb (String.eqb data "")
    then console ++ [dim +:+ timestamp +:+ reset +:+ " " +:+ icon level +:+ " "
                     +:+ message +:+ " " +:+ pink +:+ bold +:+ data +:+ reset +:+ nl]
    else console ++ [dim +:+ timestamp +:+ reset +:+ " " +:+ icon level +:+ " "
                     +:+ message +:+ nl].

Definition printResult (s : SubHunter) (console : list string) (subdomain : string)
    : list string :=
  if negb (silent s)
  then console ++ [pink +:+ "[R]" +:+ reset +:+ " " +:+ subdomain +:+ nl]
  else console ++ [subdomain +:+ nl].

(** [err.Error()] for the errors of [queryAPI]. *)
Definition failure_text (err : failure) : string :=
  match err with
  | TransportError msg => msg
  | HTTPStatus code => "HTTP " +:+ itoa code
  | BodyReadError msg => msg
  | HTMLInsteadOfJSON => "API returned HTML instead of JSON"
  | JSONDecodeFailed msg => "JSON decode failed: " +:+ msg
  end.

Definition Error (err : error) : string :=
  match err with
  | RequestError msg => msg
  | MaxRetriesExceeded None => "max retries exceeded: <nil>"
  | MaxRetriesExceeded (Some lastErr) => "max retries exceeded: " +:+ failure_text lastErr
  end.

(** What the retry loop of [queryAPI] prints: a line at the start of every
    iteration. *)
Fixpoint retry_loop_console (s : SubHunter) (domain : string) (left : nat)
    (attempt : Z) (sent : nat) (console : list string) : list string :=
  match left with
  | O => console
  | S left' =>
      let console :=
        if (1 <? attempt)%Z
        then log s console "retry"
               ("Attempt " +:+ itoa attempt +:+ "/" +:+ itoa (maxRetries s) +:+ " for")
               domain
        else log s console "run" "Querying crt.sh API" domain in
      match http_NewRequest (crt_url domain) with
      | Some _ => console
      | None =>
          match attempt_result json_Unmarshal (net sent) with
          | inl _ => retry_loop_console s domain left' (attempt + 1) (S sent) console
          | inr _ => console
          end
      end
  end.

Definition queryAPI_console (s : SubHunter) (domain : string) (console : list string)
    : list string :=
  retry_loop_console s domain (Z.to_nat (maxRetries s)) 1 0 console.

(** What [processDomain] prints. *)
Definition processDomain_console (s : SubHunter) (domain : string)
    (showResults : bool) (console : list string) : list string :=
  let domain := ToLower (TrimSpace domain) in
  if String.eqb domain "" then console
  else
    let console := queryAPI_console s domain console in
    match fst (queryAPI json_Unmarshal http_NewRequest net s domain) with
    | inl err => log s console "error" ("Failed to query " +:+ domain) (Error err)
    | inr subdomains =>
        let count := Z.of_nat (length subdomains) in
        if (0 <? count)%Z
        then
          let console :=
            log s console "found" ("Discovered " +:+ itoa count +:+ " subdomains") "" in
          if showResults then foldl (printResult s) console subdomains else console
        else log s console "warn" "No subdomains found" ""
    end.

End Console.

(** ** The program: [main] (main.go, lines 345-425)

    The flags as [flag.Parse] leaves them. *)
Module cli.


End cli.


Section Main.

Variable json_Unmarshal : string -> string + list CRTResponse.
Variable http_NewRequest : string -> option string.

(** The remote service as in a batch run (a single domain is domain 0),
    the lines of the file named by [-l] ([None] when it cannot be opened),
    and the error of [os.Create] on the file named by [-o]. *)
Variable nets : nat -> nat -> DoResult.
Variable file : option (list string).
Variable os_Create : option string.



End Main.


(** * Part II: properties *)

(** ** Strings *)

Lemma HasPrefix_star_dot (s : string) :
  HasPrefix s "*." = true -> exists t, s = String "*" (String "." t).
Proof.
  destruct s as [|a [|b t]]; simpl; try done.
  - by rewrite andb_false_r.
  - intros [Ha [Hb _]%andb_true_iff]%andb_true_iff.
    apply Ascii.eqb_eq in Ha, Hb. subst. by exists t.
Qed.

Lemma TrimPrefix_star_dot (t : string) :
  TrimPrefix (String "*" (String "." t)) "*." = t.
Proof. reflexivity. Qed.

Lemma TrimPrefix_no_prefix (s p : string) :
  HasPrefix s p = false -> TrimPrefix s p = s.
Proof. unfold TrimPrefix. by intros ->. Qed.

Lemma Split_star_dot (t : string) :
  Split (String "*" (String "." t)) "." = "*" :: Split t ".".
Proof. reflexivity. Qed.

(** ** Validator *)

Lemma part_ok_spec (p : string) :
  part_ok p = true <-> 1 <= String.length p <= 63.
Proof.
  unfold part_ok. rewrite negb_true_iff, orb_false_iff, Nat.eqb_neq, Nat.ltb_ge. lia.
Qed.

Lemma parts_ok_spec (ps : list string) :
  forallb part_ok ps = true <-> Forall (fun p => 1 <= String.length p <= 63) ps.
Proof.
  rewrite forallb_forall, Forall_forall.
  split; intros H p Hp.
  - apply part_ok_spec, H. by apply list_elem_of_In.
  - apply part_ok_spec, H. by apply list_elem_of_In.
Qed.

(** The verdict of the validator once the length guard has passed. *)
Lemma isValidSubdomain_in_range (s : string) :
  1 <= String.length s <= 253 ->
  isValidSubdomain s = forallb part_ok (Split (TrimPrefix s "*.") ".").
Proof.
  intros [Hlo Hhi]. unfold isValidSubdomain.
  destruct (Nat.eqb (String.length s) 0) eqn:E0; [apply Nat.eqb_eq in E0; lia|].
  destruct (Nat.ltb 253 (String.length s)) eqn:E1; [apply Nat.ltb_lt in E1; lia|].
  reflexivity.
Qed.

Lemma isValidSubdomain_out_of_range (s : string) :
  String.length s = 0 \/ 253 < String.length s -> isValidSubdomain s = false.
Proof.
  intros H. unfold isValidSubdomain.
  destruct H as [H|H].
  - apply Nat.eqb_eq in H. by rewrite H.
  - apply Nat.ltb_lt in H. by rewrite H, orb_true_r.
Qed.

Lemma isValidSubdomain_length (s : string) :
  isValidSubdomain s = true -> 1 <= String.length s <= 253.
Proof.
  intros H.
  destruct (decide (String.length s = 0 \/ 253 < String.length s)) as [Hout|Hin].
  - rewrite (isValidSubdomain_out_of_range s Hout) in H. discriminate.
  - lia.
Qed.

(** C3, as the claim states it, fails: a name of 253 bytes behind a
    wildcard is rejected, although the name itself is accepted. *)
Lemma wildcard_counts_toward_length :
  HasPrefix wildcard255 "*." = true /\
  TrimPrefix wildcard255 "*." = name253 /\
  String.length name253 = 253 /\
  isValidSubdomain (TrimPrefix wildcard255 "*.") = true /\
  isValidSubdomain wildcard255 = false.
Proof. vm_compute. repeat split. Qed.

(** C3 (amended): for a candidate that begins with the wildcard label, the
    length guard is applied to the candidate as given, wildcard included; when
    that guard passes (at most 253 bytes), the verdict is the verdict on the
    candidate without its wildcard label, and otherwise the candidate is
    rejected. *)
Theorem isValidSubdomain_wildcard (s : string) :
  HasPrefix s "*." = true ->
  isValidSubdomain s =
    Nat.leb (String.length s) 253 && isValidSubdomain (TrimPrefix s "*.").
Proof.
  intros Hp. destruct (HasPrefix_star_dot s Hp) as [t ->].
  rewrite TrimPrefix_star_dot.
  destruct (Nat.leb (String.length (String "*" (String "." t))) 253) eqn:Hlen.
  2:{ apply Nat.leb_gt in Hlen. by rewrite isValidSubdomain_out_of_range by lia. }
  apply Nat.leb_le in Hlen. simpl in Hlen. rewrite andb_true_l.
  rewrite isValidSubdomain_in_range by (simpl; lia).
  rewrite TrimPrefix_star_dot.
  destruct t as [|c t'].
  - reflexivity.
  - rewrite (isValidSubdomain_in_range (String c t')) by (simpl in *; lia).
    destruct (HasPrefix (String c t') "*.") eqn:Hq.
    + destruct (HasPrefix_star_dot _ Hq) as [u Hu]. rewrite Hu.
      rewrite TrimPrefix_star_dot, Split_star_dot. simpl forallb.
      by replace (part_ok "*") with true by reflexivity.
    + by rewrite TrimPrefix_no_prefix.
Qed.

Lemma isValidSubdomain_wildcard_example :
  HasPrefix "*.a.example.com" "*." = true /\
  isValidSubdomain "*.a.example.com" =
    Nat.leb (String.length "*.a.example.com") 253
    && isValidSubdomain (TrimPrefix "*.a.example.com" "*.").
Proof.
  split; [reflexivity|].
  apply (isValidSubdomain_wildcard "*.a.example.com"). reflexivity.
Defined.

(** C10: the validator looks at lengths only. A candidate is accepted exactly
    when it has 1 to 253 bytes and, one leading wildcard label removed, every
    part between dots has 1 to 63 bytes, whatever the bytes are: underscores,
    exclamation marks, spaces and a bare star pass, and of two wildcard labels
    only the first is removed, the second being judged as the label [*]. *)
Theorem isValidSubdomain_lengths_only :
  (forall s : string,
     1 <= String.length s <= 253 ->
     Forall (fun p => 1 <= String.length p <= 63) (Split (TrimPrefix s "*.") ".") ->
     isValidSubdomain s = true) /\
  (forall s : string,
     isValidSubdomain s = true ->
     1 <= String.length s <= 253 /\
     Forall (fun p => 1 <= String.length p <= 63) (Split (TrimPrefix s "*.") ".")) /\
  isValidSubdomain "a_b.example.com" = true /\
  isValidSubdomain "a!b.example.com" = true /\
  isValidSubdomain "a b.example.com" = true /\
  isValidSubdomain "*" = true /\
  TrimPrefix "*.*.a.com" "*." = "*.a.com" /\
  Split (TrimPrefix "*.*.a.com" "*.") "." = ["*"; "a"; "com"] /\
  isValidSubdomain "*.*.a.com" = true.
Proof.
  split; [|split; [|by vm_compute]].
  - intros s Hlen Hparts.
    rewrite isValidSubdomain_in_range by done. by apply parts_ok_spec.
  - intros s Hv. pose proof (isValidSubdomain_length s Hv) as Hlen.
    split; [done|]. rewrite isValidSubdomain_in_range in Hv by done.
    by apply parts_ok_spec.
Qed.

Lemma isValidSubdomain_lengths_only_example :
  isValidSubdomain "_x!. .*.y z" = true.
Proof.
  apply (proj1 isValidSubdomain_lengths_only "_x!. .*.y z").
  - simpl. lia.
  - simpl. repeat constructor; simpl; lia.
Defined.

(** ** Fetcher *)

Lemma requests_app (t1 t2 : list event) :
  requests (t1 ++ t2) = requests t1 + requests t2.
Proof. unfold requests. by rewrite List.filter_app, length_app. Qed.

Lemma requests_Get (trace : list event) (url : string) :
  requests (trace ++ [Get url]) = S (requests trace).
Proof. rewrite requests_app. unfold requests. simpl. lia. Qed.

Lemma requests_Sleep (trace : list event) (n : Z) :
  requests (trace ++ [Sleep n]) = requests trace.
Proof. rewrite requests_app. unfold requests. simpl. lia. Qed.

Lemma sleeps_app (t1 t2 : list event) : sleeps (t1 ++ t2) = sleeps t1 ++ sleeps t2.
Proof. unfold sleeps. apply flat_map_app. Qed.

Section FetcherFacts.

Variable json_Unmarshal : string -> string + list CRTResponse.
Variable http_NewRequest : string -> option string.
Variable net : nat -> DoResult.

Local Abbreviation attempt_result := (attempt_result json_Unmarshal).
Local Abbreviation retry_loop := (retry_loop json_Unmarshal http_NewRequest net).
Local Abbreviation queryAPI := (queryAPI json_Unmarshal http_NewRequest net).

Lemma requests_backed_off attempt trace :
  requests (backed_off attempt trace) = requests trace.
Proof.
  unfold backed_off. destruct (1 <? attempt)%Z; [|done].
  apply requests_Sleep.
Qed.

Lemma attempt_result_succeeds r results :
  attempt_result r = inr results <-> succeeds json_Unmarshal r results.
Proof.
  unfold succeeds. split.
  - destruct r as [msg|code [msg|body]]; cbn [attempt_result]; try done.
    + by destruct (negb (code =? StatusOK)%Z).
    + destruct (code =? StatusOK)%Z eqn:Hc; cbn [negb]; [|done].
      apply Z.eqb_eq in Hc. subst code.
      destruct (HasPrefix (TrimSpace body) "<") eqn:Hh; [done|].
      destruct (json_Unmarshal body) eqn:Hj; [done|].
      intros [= ->]. by exists body.
  - intros (body & -> & Hh & Hj). cbn [attempt_result].
    rewrite Z.eqb_refl. cbn [negb]. by rewrite Hh, Hj.
Qed.

Lemma retry_loop_fail domain left attempt lastErr sent trace err :
  http_NewRequest (crt_url domain) = None ->
  attempt_result (net sent) = inl err ->
  retry_loop domain (S left) attempt lastErr sent trace =
  retry_loop domain left (attempt + 1) (Some err) (S sent)
    (backed_off attempt trace ++ [Get (crt_url domain)]).
Proof. intros Hreq Hres. simpl. by rewrite Hreq, Hres. Qed.

Lemma retry_loop_ok domain left attempt lastErr sent trace results :
  http_NewRequest (crt_url domain) = None ->
  attempt_result (net sent) = inr results ->
  retry_loop domain (S left) attempt lastErr sent trace =
  (inr (extractSubdomains domain (map NameValue results)),
   backed_off attempt trace ++ [Get (crt_url domain)]).
Proof. intros Hreq Hres. simpl. by rewrite Hreq, Hres. Qed.

Lemma retry_loop_no_request domain left attempt lastErr sent trace msg :
  http_NewRequest (crt_url domain) = Some msg ->
  retry_loop domain (S left) attempt lastErr sent trace =
  (inl (RequestError msg), backed_off attempt trace).
Proof. intros Hreq. simpl. by rewrite Hreq. Qed.

(** No more requests than iterations. *)
Lemma retry_loop_requests domain left :
  forall attempt lastErr sent trace,
    requests (snd (retry_loop domain left attempt lastErr sent trace))
    <= requests trace + left.
Proof.
  induction left as [|left IH]; intros attempt lastErr sent trace.
  - simpl. lia.
  - destruct (http_NewRequest (crt_url domain)) as [msg|] eqn:Hreq.
    + rewrite (retry_loop_no_request _ _ _ _ _ _ msg) by done.
      simpl. rewrite requests_backed_off. lia.
    + destruct (attempt_result (net sent)) as [err|results] eqn:Hres.
      * rewrite (retry_loop_fail _ _ _ _ _ _ err) by done.
        etrans; [apply IH|].
        rewrite requests_Get, requests_backed_off. lia.
      * rewrite (retry_loop_ok _ _ _ _ _ _ results) by done.
        simpl. rewrite requests_Get, requests_backed_off. lia.
Qed.

(** The first success ends the loop. *)
Lemma retry_loop_first_success domain k :
  forall left attempt lastErr sent trace results,
    http_NewRequest (crt_url domain) = None ->
    k < left ->
    (forall j, j < k -> exists err, attempt_result (net (sent + j)) = inl err) ->
    attempt_result (net (sent + k)) = inr results ->
    let out := retry_loop domain left attempt lastErr sent trace in
    fst out = inr (extractSubdomains domain (map NameValue results)) /\
    requests (snd out) = requests trace + S k.
Proof.
  induction k as [|k IH]; intros left attempt lastErr sent trace results Hreq Hk Hfail Hok;
    (destruct left as [|left]; [lia|]).
  - rewrite Nat.add_0_r in Hok. cbv zeta.
    rewrite (retry_loop_ok _ _ _ _ _ _ results) by done. simpl.
    rewrite requests_Get, requests_backed_off. split; [done | lia].
  - destruct (Hfail 0) as [err Herr]; [lia|]. rewrite Nat.add_0_r in Herr.
    cbv zeta. rewrite (retry_loop_fail _ _ _ _ _ _ err) by done.
    destruct (IH left (attempt + 1)%Z (Some err) (S sent)
                (backed_off attempt trace ++ [Get (crt_url domain)]) results)
      as [Hres Hcount]; [done | lia | | | ].
    + intros j Hj. replace (S sent + j) with (sent + S j) by lia. apply Hfail. lia.
    + by replace (S sent + k) with (sent + S k) by lia.
    + split; [done|]. rewrite Hcount, requests_Get, requests_backed_off. lia.
Qed.

(** When every iteration fails, the error carries the last failure. *)
Lemma retry_loop_exhausted domain left :
  forall attempt lastErr sent trace err,
    http_NewRequest (crt_url domain) = None ->
    (forall j, j < S left -> exists e, attempt_result (net (sent + j)) = inl e) ->
    attempt_result (net (sent + left)) = inl err ->
    let out := retry_loop domain (S left) attempt lastErr sent trace in
    fst out = inl (MaxRetriesExceeded (Some err)) /\
    requests (snd out) = requests trace + S left.
Proof.
  induction left as [|left IH]; intros attempt lastErr sent trace err Hreq Hfail Hlast.
  - rewrite Nat.add_0_r in Hlast. cbv zeta.
    rewrite (retry_loop_fail _ _ _ _ _ _ err) by done. simpl.
    rewrite requests_Get, requests_backed_off. split; [done | lia].
  - destruct (Hfail 0) as [e0 He0]; [lia|]. rewrite Nat.add_0_r in He0.
    cbv zeta. rewrite (retry_loop_fail _ _ _ _ _ _ e0) by done.
    destruct (IH (attempt + 1)%Z (Some e0) (S sent)
                (backed_off attempt trace ++ [Get (crt_url domain)]) err)
      as [Hres Hcount]; [done | | | ].
    + intros j Hj. replace (S sent + j) with (sent + S j) by lia. apply Hfail. lia.
    + by replace (S sent + left) with (sent + S left) by lia.
    + split; [done|]. rewrite Hcount, requests_Get, requests_backed_off. lia.
Qed.

End FetcherFacts.

(** C1, as the claim states it, fails: a response with status 201, a body
    that is not HTML and decodes as a JSON array is a success in the claim's
    sense, yet the fetcher records it as a failure and goes on to use all
    three attempts. *)
Lemma status_201_is_not_a_success :
  succeeds_2xx decode_example (net_created 0) [] /\
  queryAPI decode_example url_parses net_created (NewSubHunter 60 5 false) "example.com" =
    (inl (MaxRetriesExceeded (Some (HTTPStatus 201))),
     [Get (crt_url "example.com"); Sleep 2;
      Get (crt_url "example.com"); Sleep 3;
      Get (crt_url "example.com")]).
Proof.
  split.
  - exists 201%Z, "[]". repeat split; try reflexivity; lia.
  - reflexivity.
Qed.

(** C1 (amended): for every domain the fetcher sends at most maxRetries = 3
    requests; if an attempt succeeds (status exactly 200, a body that is not
    HTML, a JSON array that decodes) after failed ones, the extracted results
    are returned at once and no further request is sent; and if all 3 attempts
    fail, the error returned wraps the failure of the last one. *)
Theorem queryAPI_three_attempts
    (json_Unmarshal : string -> string + list CRTResponse)
    (http_NewRequest : string -> option string) (net : nat -> DoResult)
    (timeout concurrency : Z) (silent : bool) (domain : string) :
  requests (snd (queryAPI json_Unmarshal http_NewRequest net
                   (NewSubHunter timeout concurrency silent) domain)) <= 3 /\
  (forall k results,
     http_NewRequest (crt_url domain) = None ->
     k < 3 ->
     (forall j, j < k -> exists err, attempt_result json_Unmarshal (net j) = inl err) ->
     succeeds json_Unmarshal (net k) results ->
     fst (queryAPI json_Unmarshal http_NewRequest net
            (NewSubHunter timeout concurrency silent) domain)
       = inr (extractSubdomains domain (map NameValue results)) /\
     requests (snd (queryAPI json_Unmarshal http_NewRequest net
                      (NewSubHunter timeout concurrency silent) domain)) = S k) /\
  (forall err,
     http_NewRequest (crt_url domain) = None ->
     (forall j, j < 3 -> exists e, attempt_result json_Unmarshal (net j) = inl e) ->
     attempt_result json_Unmarshal (net 2) = inl err ->
     fst (queryAPI json_Unmarshal http_NewRequest net
            (NewSubHunter timeout concurrency silent) domain)
       = inl (MaxRetriesExceeded (Some err)) /\
     requests (snd (queryAPI json_Unmarshal http_NewRequest net
                      (NewSubHunter timeout concurrency silent) domain)) = 3).
Proof.
  unfold queryAPI. cbn [maxRetries NewSubHunter].
  change (Z.to_nat 3) with 3. split; [|split].
  - apply (retry_loop_requests json_Unmarshal http_NewRequest net domain 3 1%Z None 0 []).
  - intros k results Hreq Hk Hfail Hok.
    apply attempt_result_succeeds in Hok.
    by apply (retry_loop_first_success json_Unmarshal http_NewRequest net domain k
                3 1%Z None 0 [] results).
  - intros err Hreq Hfail Hlast.
    by apply (retry_loop_exhausted json_Unmarshal http_NewRequest net domain 2
                1%Z None 0 [] err).
Qed.

Lemma queryAPI_success_at_second_attempt :
  fst (queryAPI decode_example url_parses net_second_try
         (NewSubHunter 60 5 false) "example.com") = inr ["foo.example.com"] /\
  requests (snd (queryAPI decode_example url_parses net_second_try
                   (NewSubHunter 60 5 false) "example.com")) = 2.
Proof.
  apply (proj1 (proj2 (queryAPI_three_attempts decode_example url_parses
                         net_second_try 60 5 false "example.com"))
           1 [ {| NameValue := "foo.example.com" |} ]).
  - reflexivity.
  - lia.
  - intros j Hj. assert (j = 0) as -> by lia. by eexists.
  - exists body_foo. repeat split; reflexivity.
Defined.

(** C2: what the code does where the claim expects sleeps of 1 and 2. When
    the first two attempts fail, nothing is slept before attempt 1, and the
    sleeps before attempts 2 and 3 last 2 and 3 seconds: the loop sleeps
    [attempt] seconds, and [attempt] is then 2 and 3. *)
Theorem queryAPI_backoff_sleeps
    (json_Unmarshal : string -> string + list CRTResponse)
    (http_NewRequest : string -> option string) (net : nat -> DoResult)
    (timeout concurrency : Z) (silent : bool) (domain : string) :
  http_NewRequest (crt_url domain) = None ->
  (exists err, attempt_result json_Unmarshal (net 0) = inl err) ->
  (exists err, attempt_result json_Unmarshal (net 1) = inl err) ->
  snd (queryAPI json_Unmarshal http_NewRequest net
         (NewSubHunter timeout concurrency silent) domain)
    = [Get (crt_url domain); Sleep 2; Get (crt_url domain); Sleep 3;
       Get (crt_url domain)] /\
  sleeps (snd (queryAPI json_Unmarshal http_NewRequest net
                 (NewSubHunter timeout concurrency silent) domain)) = [2; 3]%Z.
Proof.
  intros Hreq [e0 H0] [e1 H1].
  unfold queryAPI. cbn [maxRetries NewSubHunter]. change (Z.to_nat 3) with 3.
  rewrite (retry_loop_fail json_Unmarshal http_NewRequest net _ _ _ _ _ _ e0) by done.
  rewrite (retry_loop_fail json_Unmarshal http_NewRequest net _ _ _ _ _ _ e1) by done.
  destruct (attempt_result json_Unmarshal (net 2)) as [e2|results] eqn:H2.
  - rewrite (retry_loop_fail json_Unmarshal http_NewRequest net _ _ _ _ _ _ e2) by done.
    split; reflexivity.
  - rewrite (retry_loop_ok json_Unmarshal http_NewRequest net _ _ _ _ _ _ results) by done.
    split; reflexivity.
Qed.

Lemma queryAPI_backoff_three_refusals :
  snd (queryAPI decode_example url_parses net_refusing
         (NewSubHunter 60 5 false) "example.com")
    = [Get (crt_url "example.com"); Sleep 2; Get (crt_url "example.com"); Sleep 3;
       Get (crt_url "example.com")] /\
  sleeps (snd (queryAPI decode_example url_parses net_refusing
                 (NewSubHunter 60 5 false) "example.com")) = [2; 3]%Z.
Proof.
  apply (queryAPI_backoff_sleeps decode_example url_parses net_refusing
           60 5 false "example.com").
  - reflexivity.
  - by eexists.
  - by eexists.
Defined.

(** C7: a response with status 200 whose body, trimmed, starts with [<] is a
    failure of the attempt, whatever the body is otherwise: it is never a
    success, it is recorded as the last error and the loop goes on, and a
    service that only ever answers so exhausts the retries. *)
Theorem html_body_is_a_failure
    (json_Unmarshal : string -> string + list CRTResponse)
    (http_NewRequest : string -> option string) (net : nat -> DoResult)
    (body : string) :
  HasPrefix (TrimSpace body) "<" = true ->
  attempt_result json_Unmarshal (DoResponse StatusOK (ReadBody body))
    = inl HTMLInsteadOfJSON /\
  (forall results,
     ~ succeeds json_Unmarshal (DoResponse StatusOK (ReadBody body)) results) /\
  (forall domain left attempt lastErr sent trace,
     http_NewRequest (crt_url domain) = None ->
     net sent = DoResponse StatusOK (ReadBody body) ->
     retry_loop json_Unmarshal http_NewRequest net domain (S left) attempt lastErr
       sent trace
     = retry_loop json_Unmarshal http_NewRequest net domain left (attempt + 1)
         (Some HTMLInsteadOfJSON) (S sent)
         (backed_off attempt trace ++ [Get (crt_url domain)])) /\
  (forall timeout concurrency silent domain,
     http_NewRequest (crt_url domain) = None ->
     (forall n, net n = DoResponse StatusOK (ReadBody body)) ->
     fst (queryAPI json_Unmarshal http_NewRequest net
            (NewSubHunter timeout concurrency silent) domain)
       = inl (MaxRetriesExceeded (Some HTMLInsteadOfJSON))).
Proof.
  intros Hhtml.
  assert (attempt_result json_Unmarshal (DoResponse StatusOK (ReadBody body))
          = inl HTMLInsteadOfJSON) as Hres.
  { cbn [attempt_result]. rewrite Z.eqb_refl. cbn [negb]. by rewrite Hhtml. }
  split; [done|]. split; [|split].
  - intros results Hs. apply attempt_result_succeeds in Hs. congruence.
  - intros domain left attempt lastErr sent trace Hreq Hnet.
    apply retry_loop_fail; [done|]. by rewrite Hnet.
  - intros timeout concurrency silent domain Hreq Hnet.
    unfold queryAPI. cbn [maxRetries NewSubHunter]. change (Z.to_nat 3) with 3.
    apply (retry_loop_exhausted json_Unmarshal http_NewRequest net domain 2
             1%Z None 0 [] HTMLInsteadOfJSON); [done | | by rewrite Hnet].
    intros j _. exists HTMLInsteadOfJSON. by rewrite Hnet.
Qed.

Lemma html_page_with_status_200 :
  attempt_result decode_example (DoResponse StatusOK (ReadBody "  <html>busy</html>"))
    = inl HTMLInsteadOfJSON /\
  fst (queryAPI decode_example url_parses net_html (NewSubHunter 60 5 false)
         "example.com")
    = inl (MaxRetriesExceeded (Some HTMLInsteadOfJSON)).
Proof.
  pose proof (html_body_is_a_failure decode_example url_parses net_html
                "  <html>busy</html>" eq_refl) as (H1 & _ & _ & H4).
  split; [exact H1|]. by apply H4.
Defined.

(** ** Sorted keys *)

Lemma sorted_keys_elem_of (X : gset string) (x : string) :
  x ∈ sorted_keys X <-> x ∈ X.
Proof.
  unfold sorted_keys, sort.Strings.
  rewrite merge_sort_Permutation. apply elem_of_elements.
Qed.

Lemma sorted_keys_NoDup (X : gset string) : NoDup (sorted_keys X).
Proof.
  unfold sorted_keys, sort.Strings.
  rewrite merge_sort_Permutation. apply NoDup_elements.
Qed.

Lemma sorted_keys_sorted (X : gset string) : StronglySorted String.le (sorted_keys X).
Proof. unfold sorted_keys, sort.Strings. apply StronglySorted_merge_sort; apply _. Qed.

Lemma sorted_keys_length (X : gset string) : length (sorted_keys X) = size X.
Proof.
  unfold sorted_keys, sort.Strings.
  by rewrite merge_sort_Permutation.
Qed.

(** ** Batch orchestrator *)

Lemma merge_union (all : gset string) (subs : list string) :
  merge all subs = list_to_set subs ∪ all.
Proof.
  unfold merge. revert all.
  induction subs as [|sub subs IH]; intros all; simpl.
  - set_solver.
  - rewrite IH. set_solver.
Qed.

Lemma count_insert (f : task -> bool) (l : list task) (i : nat) (old new : task) :
  l !! i = Some old ->
  length (List.filter f (<[i := new]> l)) + Nat.b2n (f old)
  = length (List.filter f l) + Nat.b2n (f new).
Proof.
  revert i. induction l as [|t l IH]; intros [|i] Hi; simplify_eq/=.
  - destruct (f old), (f new); simpl; lia.
  - specialize (IH i Hi). destruct (f t); simpl; lia.
Qed.

Lemma count_le (f g : task -> bool) (l : list task) :
  (forall t, f t = true -> g t = true) ->
  length (List.filter f l) <= length (List.filter g l).
Proof.
  intros Hfg. induction l as [|t l IH]; simpl; [lia|].
  destruct (f t) eqn:Hf.
  - rewrite (Hfg t Hf). simpl. lia.
  - destruct (g t); simpl; lia.
Qed.

Lemma count_replicate_Waiting (f : task -> bool) (n : nat) :
  f Waiting = false -> length (List.filter f (replicate n Waiting)) = 0.
Proof. intros Hf. induction n as [|n IH]; simpl; [done|]. by rewrite Hf. Qed.

Section BatchFacts.

Variable json_Unmarshal : string -> string + list CRTResponse.
Variable http_NewRequest : string -> option string.
Variable nets : nat -> nat -> DoResult.

Local Abbreviation proc := (process json_Unmarshal http_NewRequest nets).
Local Abbreviation sloop := (seq_loop json_Unmarshal http_NewRequest nets).
Local Abbreviation pstep := (step json_Unmarshal http_NewRequest nets).
Local Abbreviation reach := (reachable json_Unmarshal http_NewRequest nets).
Local Abbreviation res_from := (results_from json_Unmarshal http_NewRequest nets).
Local Abbreviation res_all := (results json_Unmarshal http_NewRequest nets).
Local Abbreviation inv := (pool_inv json_Unmarshal http_NewRequest nets).

(** [processDomain] writes the counter only, and reads [maxRetries] only. *)
Lemma process_config i s domain : config (snd (proc i s domain)) = config s.
Proof.
  unfold process, processDomain.
  destruct (String.eqb _ ""); [done|].
  by destruct (fst (queryAPI _ _ _ s _)).
Qed.

Lemma process_fst i s s' domain :
  config s = config s' -> fst (proc i s domain) = fst (proc i s' domain).
Proof.
  intros Hc. assert (maxRetries s = maxRetries s') as Hm by (by injection Hc).
  unfold process, processDomain, queryAPI. rewrite Hm.
  destruct (String.eqb _ ""); [done|].
  by destruct (fst (retry_loop _ _ _ _ _ _ _ _ _)).
Qed.

Lemma results_from_length i s domains :
  length (res_from i s domains) = length domains.
Proof. revert i. induction domains as [|d ds IH]; intros i; simpl; [done|]. by rewrite IH. Qed.

Lemma results_from_lookup i s domains k :
  res_from i s domains !! k
  = (fun domain => fst (proc (i + k) s domain)) <$> (domains !! k).
Proof.
  revert i k. induction domains as [|d ds IH]; intros i [|k]; simpl; try done.
  - by rewrite Nat.add_0_r.
  - rewrite IH. by replace (S i + k) with (i + S k) by lia.
Qed.

Lemma results_lookup s domains k domain :
  domains !! k = Some domain ->
  res_all s domains !! k = Some (fst (proc k s domain)).
Proof. intros Hk. unfold results. by rewrite results_from_lookup, Hk. Qed.

(** The sequential branch collects the union of the per-domain results. *)
Lemma seq_loop_spec s0 domains :
  forall i all s,
    config s = config s0 ->
    fst (sloop i domains all s)
      = ⋃ (list_to_set <$> res_from i s0 domains) ∪ all /\
    config (snd (sloop i domains all s)) = config s0.
Proof.
  induction domains as [|d ds IH]; intros i all s Hc; simpl.
  - split; [set_solver | done].
  - destruct (proc i s d) as [subs s'] eqn:Hp.
    assert (config s' = config s0) as Hc'.
    { rewrite <- Hc. change s' with (snd (subs, s')). rewrite <- Hp. apply process_config. }
    destruct (IH (S i) (merge all subs) s' Hc') as [Hset Hcfg].
    split; [|done]. rewrite Hset, merge_union.
    rewrite <- (process_fst i s s0 d Hc), Hp. simpl. set_solver.
Qed.

Lemma pool_inv_start s0 domains : inv s0 domains (start s0 domains).
Proof.
  unfold pool_inv, start, count. simpl. repeat split.
  - by rewrite length_replicate.
  - intros i subs [? _]%lookup_replicate. done.
  - set_solver.
  - intros (i & t & subs & [-> _]%lookup_replicate & Hm & _). done.
  - by apply count_replicate_Waiting.
  - lia.
Qed.

Lemma pool_inv_step s0 domains p p' :
  inv s0 domains p ->
  pstep (Z.to_nat (concurrency s0)) domains p p' ->
  inv s0 domains p'.
Proof.
  intros (Hlen & Hcfg & Hfetched & Hset & Hcount & Hcap) Hstep.
  destruct Hstep as [i p Hi Hfree | i d subs s' p Hi Hd Hp | i subs p Hi | i n p Hi Hsem];
    unfold pool_inv, count in *; simpl in *.
  - (* a slot is taken *)
    pose proof (count_insert holds_slot _ i Waiting Running Hi) as Hc. simpl in Hc.
    repeat split; try done; try lia.
    + by rewrite length_insert.
    + intros j subs [(_ & ? & _)|[_ Hj]]%list_lookup_insert_Some; [done | eauto].
    + intros Hx. apply Hset in Hx as (j & t & subs & Hj & Hm & Hr & Hx).
      exists j, t, subs. repeat split; try done.
      rewrite list_lookup_insert_ne; [done|]. intros ->. rewrite Hi in Hj. by simplify_eq.
    + intros (j & t & subs & Hj & Hm & Hr & Hx). apply Hset.
      apply list_lookup_insert_Some in Hj as [(_ & <- & _)|[_ Hj]]; [done|].
      by exists j, t, subs.
  - (* processDomain returns *)
    pose proof (count_insert holds_slot _ i Running (Fetched subs) Hi) as Hc. simpl in Hc.
    assert (config s' = config s0) as Hcfg'.
    { rewrite <- Hcfg. change s' with (snd (subs, s')). rewrite <- Hp. apply process_config. }
    repeat split; try done; try lia.
    + by rewrite length_insert.
    + intros j subs' [(<- & [= <-] & _)|[_ Hj]]%list_lookup_insert_Some; [|eauto].
      rewrite (results_lookup s0 domains i d Hd).
      by rewrite <- (process_fst i (hunter p) s0 d Hcfg), Hp.
    + intros Hx. apply Hset in Hx as (j & t & subs' & Hj & Hm & Hr & Hx).
      exists j, t, subs'. repeat split; try done.
      rewrite list_lookup_insert_ne; [done|]. intros ->. rewrite Hi in Hj. by simplify_eq.
    + intros (j & t & subs' & Hj & Hm & Hr & Hx). apply Hset.
      apply list_lookup_insert_Some in Hj as [(_ & <- & _)|[_ Hj]]; [done|].
      by exists j, t, subs'.
  - (* the results are merged *)
    pose proof (count_insert holds_slot _ i (Fetched subs) Merged Hi) as Hc. simpl in Hc.
    pose proof (Hfetched i subs Hi) as Hri.
    repeat split; try done; try lia.
    + by rewrite length_insert.
    + intros j subs' [(_ & ? & _)|[_ Hj]]%list_lookup_insert_Some; [done | eauto].
    + rewrite merge_union. intros [Hx|Hx]%elem_of_union.
      * exists i, Merged, subs. repeat split; try done.
        -- apply list_lookup_insert_eq. by apply lookup_lt_is_Some.
        -- by apply elem_of_list_to_set in Hx.
      * apply Hset in Hx as (j & t & subs' & Hj & Hm & Hr & Hx).
        exists j, t, subs'. repeat split; try done.
        rewrite list_lookup_insert_ne; [done|]. intros ->. rewrite Hi in Hj. by simplify_eq.
    + rewrite merge_union. intros (j & t & subs' & Hj & Hm & Hr & Hx).
      apply list_lookup_insert_Some in Hj as [(<- & <- & _)|[_ Hj]].
      * apply elem_of_union_l, elem_of_list_to_set. by simplify_eq.
      * apply elem_of_union_r, Hset. by exists j, t, subs'.
  - (* the slot is given back *)
    pose proof (count_insert holds_slot _ i Merged Finished Hi) as Hc. simpl in Hc.
    repeat split; try done; try lia.
    + by rewrite length_insert.
    + intros j subs' [(_ & ? & _)|[_ Hj]]%list_lookup_insert_Some; [done | eauto].
    + intros Hx. apply Hset in Hx as (j & t & subs' & Hj & Hm & Hr & Hx).
      destruct (decide (i = j)) as [<-|Hne].
      * exists i, Finished, subs'. repeat split; try done.
        apply list_lookup_insert_eq. by apply lookup_lt_is_Some.
      * exists j, t, subs'. repeat split; try done. by rewrite list_lookup_insert_ne.
    + intros (j & t & subs' & Hj & Hm & Hr & Hx). apply Hset.
      apply list_lookup_insert_Some in Hj as [(<- & <- & _)|[_ Hj]].
      * by exists i, Merged, subs'.
      * by exists j, t, subs'.
Qed.

Lemma reachable_inv s0 domains p : reach s0 domains p -> inv s0 domains p.
Proof.
  unfold reachable. revert p. apply rtc_ind_r.
  - apply pool_inv_start.
  - intros p p' _ Hstep Hp. by eapply pool_inv_step.
Qed.

End BatchFacts.


Section BatchRuns.

Variable json_Unmarshal : string -> string + list CRTResponse.
Variable http_NewRequest : string -> option string.
Variable nets : nat -> nat -> DoResult.

Local Abbreviation proc := (process json_Unmarshal http_NewRequest nets).
Local Abbreviation pstep := (step json_Unmarshal http_NewRequest nets).
Local Abbreviation reach := (reachable json_Unmarshal http_NewRequest nets).
Local Abbreviation res_all := (results json_Unmarshal http_NewRequest nets).
Local Abbreviation inv := (pool_inv json_Unmarshal http_NewRequest nets).

(** When all goroutines are done, the shared map is the union of the
    per-domain results. *)
Lemma all_done_union s0 domains p :
  inv s0 domains p -> all_done p ->
  allSubdomains p = ⋃ (list_to_set <$> res_all s0 domains).
Proof.
  intros (Hlen & _ & _ & Hset & _) Hdone. apply set_eq. intros x.
  rewrite Hset, elem_of_union_list. split.
  - intros (i & t & subs & _ & _ & Hr & Hx).
    exists (list_to_set subs). split; [|by apply elem_of_list_to_set].
    apply list_elem_of_fmap_2. by eapply list_elem_of_lookup_2.
  - intros (X & (subs & -> & Hsubs)%list_elem_of_fmap & Hx).
    apply list_elem_of_lookup_1 in Hsubs as [i Hi].
    assert (i < length (tasks p)) as Hlt.
    { rewrite Hlen, <- (results_from_length json_Unmarshal http_NewRequest nets 0 s0).
      by eapply lookup_lt_Some. }
    apply lookup_lt_is_Some in Hlt as [t Ht].
    exists i, t, subs. repeat split; try done.
    + by rewrite <- (Forall_lookup_1 _ _ _ _ Hdone Ht).
    + by apply elem_of_list_to_set in Hx.
Qed.

(** With at least one slot, the goroutines can be run to completion: here,
    one after the other. *)
Lemma served_one_more cap domains p k m :
  0 < cap ->
  length domains = k + S m ->
  tasks p = replicate k Finished ++ Waiting :: replicate m Waiting ->
  sem p = 0 ->
  exists p', rtc (pstep cap domains) p p' /\
             tasks p' = replicate (S k) Finished ++ replicate m Waiting /\
             sem p' = 0.
Proof.
  intros Hcap Hlen Htasks Hsem.
  assert (length (replicate k Finished) = k) as Hk by apply length_replicate.
  assert (forall t l, (replicate k Finished ++ t :: l) !! k = Some t) as Hlook.
  { intros t l. by apply list_lookup_middle. }
  assert (forall t t' l, <[k := t']> (replicate k Finished ++ t :: l)
                         = replicate k Finished ++ t' :: l) as Hins.
  { intros t t' l. rewrite insert_app_r_alt by lia. by rewrite Hk, Nat.sub_diag. }
  destruct (lookup_lt_is_Some_2 domains k) as [d Hd]; [lia|].
  destruct (proc k (hunter p) d) as [subs s'] eqn:Hp.
  eexists. split; [|split].
  - eapply rtc_l.
    { apply (step_acquire _ _ _ cap domains k p); [by rewrite Htasks | lia]. }
    eapply rtc_l.
    { eapply (step_fetch _ _ _ cap domains k d subs s'); cbn [tasks sem hunter allSubdomains]; [|done|done].
      by rewrite Htasks, Hins. }
    eapply rtc_l.
    { eapply (step_merge _ _ _ cap domains k subs); cbn [tasks sem hunter allSubdomains].
      by rewrite Htasks, !Hins. }
    eapply rtc_once.
    eapply (step_release _ _ _ cap domains k 0); cbn [tasks sem hunter allSubdomains]; [|by rewrite Hsem].
    by rewrite Htasks, !Hins.
  - cbn [tasks sem hunter allSubdomains]. rewrite Htasks, !Hins.
    by rewrite replicate_S_end, <- app_assoc.
  - done.
Qed.

Lemma served_all cap domains s :
  0 < cap ->
  forall k m, length domains = k + m ->
    exists p, rtc (pstep cap domains) (start s domains) p /\
              tasks p = replicate k Finished ++ replicate m Waiting /\
              sem p = 0.
Proof.
  intros Hcap. induction k as [|k IH]; intros m Hlen.
  - exists (start s domains). split; [done|]. split; [|done].
    simpl. by rewrite Hlen.
  - destruct (IH (S m)) as (p & Hrun & Htasks & Hsem); [lia|].
    destruct (served_one_more cap domains p k m Hcap) as (p' & Hrun' & Htasks' & Hsem');
      [lia | done | done |].
    exists p'. split; [by etrans|done].
Qed.

Lemma concurrent_run_exists s domains :
  (0 < concurrency s)%Z ->
  exists p, reach s domains p /\ all_done p.
Proof.
  intros Hc.
  destruct (served_all (Z.to_nat (concurrency s)) domains s) with
    (k := length domains) (m := 0) as (p & Hrun & Htasks & _); [lia | lia |].
  exists p. split; [done|]. unfold all_done. rewrite Htasks, app_nil_r.
  apply Forall_replicate_eq.
Qed.

(** Whatever the mode, a run returns the sorted keys of the union of the
    per-domain results, with the counter set to their number. *)
Lemma processDomainsFromFile_returns s lines concurrent res :
  processDomainsFromFile json_Unmarshal http_NewRequest nets s (Some lines) concurrent res ->
  exists h, config h = config s /\
    res = finish (⋃ (list_to_set <$> res_all s (load_domains lines))) h.
Proof.
  unfold processDomainsFromFile.
  destruct (concurrent && Nat.ltb 1 (length (load_domains lines))).
  - intros (_ & p & Hreach & Hdone & ->).
    pose proof (reachable_inv _ _ _ _ _ _ Hreach) as Hinv.
    exists (hunter p). split; [apply Hinv|].
    by rewrite (all_done_union s (load_domains lines) p Hinv Hdone).
  - destruct (seq_loop _ _ _ 0 (load_domains lines) ∅ s) as [all s'] eqn:Hloop.
    intros ->.
    destruct (seq_loop_spec json_Unmarshal http_NewRequest nets s (load_domains lines)
                0 ∅ s eq_refl) as [Hset Hcfg].
    rewrite Hloop in Hset, Hcfg. simpl in Hset, Hcfg.
    exists s'. split; [done|]. rewrite Hset. f_equal. set_solver.
Qed.

(** Without a slot nothing moves: with capacity 0 every send on the
    semaphore blocks, the goroutines wait for ever and [wg.Wait()] does not
    return (the Go runtime then reports a deadlock). *)
Lemma no_slot_no_progress s domains p :
  concurrency s = 0%Z ->
  reach s domains p ->
  tasks p = replicate (length domains) Waiting /\ sem p = 0.
Proof.
  intros Hc. unfold reachable. rewrite Hc. change (Z.to_nat 0) with 0.
  revert p. apply rtc_ind_r; [done|].
  intros p p' _ Hstep [Htasks Hsem].
  destruct Hstep as [i p Hi Hfree | i d subs s' p Hi _ _ | i subs p Hi | i n p Hi _].
  - lia.
  - rewrite Htasks in Hi. by apply lookup_replicate in Hi as [? _].
  - rewrite Htasks in Hi. by apply lookup_replicate in Hi as [? _].
  - rewrite Htasks in Hi. by apply lookup_replicate in Hi as [? _].
Qed.

Lemma no_slot_no_return s domains res :
  concurrency s = 0%Z -> domains <> [] ->
  ~ concurrent_returns json_Unmarshal http_NewRequest nets s domains res.
Proof.
  intros Hc Hd (_ & p & Hreach & Hdone & _).
  destruct (no_slot_no_progress s domains p Hc Hreach) as [Htasks _].
  unfold all_done in Hdone. rewrite Htasks in Hdone.
  destruct domains as [|d ds]; [done|]. simpl in Hdone.
  by apply Forall_cons in Hdone as [? _].
Qed.
End BatchRuns.

(** C5: every batch run over the domains read from the file that returns,
    in either mode, returns a sequence that is sorted and free of duplicates,
    whose members are exactly the subdomains that [processDomain] returned
    for some domain of the list, with [totalFound] the length of that
    sequence, which is the size of the union of the per-domain results (not
    the sum of their lengths). Such runs exist: the sequential mode always
    returns, and so does the concurrent mode, whatever the goroutines do
    first, unless two domains or more are left without a worker. *)
Theorem batch_returns_sorted_union
    (json_Unmarshal : string -> string + list CRTResponse)
    (http_NewRequest : string -> option string) (nets : nat -> nat -> DoResult)
    (s : SubHunter) (lines : list string) (concurrent : bool) :
  (forall res,
     processDomainsFromFile json_Unmarshal http_NewRequest nets s (Some lines)
       concurrent res ->
     StronglySorted String.le (fst res) /\
     NoDup (fst res) /\
     (forall x, x ∈ fst res <->
        exists i subs,
          results json_Unmarshal http_NewRequest nets s (load_domains lines) !! i
            = Some subs /\ x ∈ subs) /\
     totalFound (snd res) = Z.of_nat (length (fst res)) /\
     length (fst res) =
       size (⋃ (list_to_set <$>
                  results json_Unmarshal http_NewRequest nets s (load_domains lines))
             : gset string)) /\
  ((concurrent = true -> 2 <= length (load_domains lines) -> (0 < concurrency s)%Z) ->
   exists res,
     processDomainsFromFile json_Unmarshal http_NewRequest nets s (Some lines)
       concurrent res).
Proof.
  split.
  - intros res Hrun.
    destruct (processDomainsFromFile_returns _ _ _ _ _ _ _ Hrun) as (h & _ & ->).
    unfold finish. cbn [fst snd set_totalFound totalFound].
    split; [apply sorted_keys_sorted|]. split; [apply sorted_keys_NoDup|].
    split; [|split; [done | apply sorted_keys_length]].
    intros x. rewrite sorted_keys_elem_of, elem_of_union_list. split.
    + intros (X & (subs & -> & Hsubs)%list_elem_of_fmap & Hx).
      apply list_elem_of_lookup_1 in Hsubs as [i Hi].
      exists i, subs. split; [done|]. by apply elem_of_list_to_set in Hx.
    + intros (i & subs & Hi & Hx).
      exists (list_to_set subs). split; [|by apply elem_of_list_to_set].
      apply list_elem_of_fmap_2. by eapply list_elem_of_lookup_2.
  - intros Hworkers. unfold processDomainsFromFile.
    destruct (concurrent && Nat.ltb 1 (length (load_domains lines))) eqn:Hmode.
    + apply andb_true_iff in Hmode as [-> Hlen%Nat.ltb_lt].
      assert (0 < concurrency s)%Z as Hpos by (apply Hworkers; [done|lia]).
      destruct (concurrent_run_exists json_Unmarshal http_NewRequest nets s
                  (load_domains lines) Hpos) as (p & Hreach & Hdone).
      exists (finish (allSubdomains p) (hunter p)).
      split; [lia|]. by exists p.
    + destruct (seq_loop _ _ _ 0 (load_domains lines) ∅ s) as [all s'].
      by exists (finish all s').
Qed.

(** The overlapping batch: the two domains return 2 and 1 subdomains; the
    sequential run returns 2 and counts 2, and with five workers a
    concurrent run returns, sorted and without repetition, 2 as well. *)
Lemma batch_of_two_overlapping_domains :
  map length (results decode_batch url_parses nets_batch (NewSubHunter 60 5 false)
                (load_domains lines_batch)) = [2; 1] /\
  (StronglySorted String.le ["w.x.a.com"; "x.a.com"] /\
   NoDup ["w.x.a.com"; "x.a.com"] /\
   (forall x, x ∈ ["w.x.a.com"; "x.a.com"] <->
      exists i subs,
        results decode_batch url_parses nets_batch (NewSubHunter 60 5 false)
          (load_domains lines_batch) !! i = Some subs /\ x ∈ subs) /\
   totalFound (set_totalFound (NewSubHunter 60 5 false) 2) = 2%Z /\
   2 = size (⋃ (list_to_set <$>
                  results decode_batch url_parses nets_batch (NewSubHunter 60 5 false)
                    (load_domains lines_batch)) : gset string)) /\
  exists res,
    processDomainsFromFile decode_batch url_parses nets_batch
      (NewSubHunter 60 5 false) (Some lines_batch) true res /\
    StronglySorted String.le (fst res) /\
    NoDup (fst res) /\
    totalFound (snd res) = 2%Z /\
    length (fst res) = 2.
Proof.
  split; [by vm_compute|]. split.
  - apply (proj1 (batch_returns_sorted_union decode_batch url_parses nets_batch
                    (NewSubHunter 60 5 false) lines_batch false)
             (["w.x.a.com"; "x.a.com"], set_totalFound (NewSubHunter 60 5 false) 2)).
    by vm_compute.
  - destruct (batch_returns_sorted_union decode_batch url_parses nets_batch
                (NewSubHunter 60 5 false) lines_batch true) as [Hprops Hruns].
    destruct Hruns as [res Hres]; [intros _ _; reflexivity|].
    destruct (Hprops res Hres) as (Hsorted & Hnodup & _ & Hcount & Hsize).
    assert (length (fst res) = 2) as Hlen by (rewrite Hsize; by vm_compute).
    exists res. split; [exact Hres|]. split; [exact Hsorted|].
    split; [exact Hnodup|]. split; [|exact Hlen]. rewrite Hcount, Hlen. reflexivity.
Defined.




(** C9: in every state the concurrent branch can reach, the goroutines that
    hold a slot of the semaphore are as many as the tokens in its buffer, at
    most its capacity [s.concurrency]; the fetches in flight are among them.
    So at most maxWorkers fetches are in flight at any time. *)
Theorem at_most_maxWorkers_in_flight
    (json_Unmarshal : string -> string + list CRTResponse)
    (http_NewRequest : string -> option string) (nets : nat -> nat -> DoResult)
    (s : SubHunter) (domains : list string) (p : pool) :
  reachable json_Unmarshal http_NewRequest nets s domains p ->
  count fetching p <= count holds_slot p /\
  count holds_slot p = sem p /\
  sem p <= Z.to_nat (concurrency s) /\
  count fetching p <= Z.to_nat (concurrency s).
Proof.
  intros Hreach.
  destruct (reachable_inv _ _ _ _ _ _ Hreach) as (_ & _ & _ & _ & Hcount & Hcap).
  assert (count fetching p <= count holds_slot p) as Hle.
  { apply count_le. by intros []. }
  repeat split; [done | done | done | lia].
Qed.

(** Two workers and five domains: with two fetches in flight the buffer is
    full, and the bound of the theorem is 2. *)
Lemma two_workers_five_domains :
  count fetching two_fetching = 2 /\
  count fetching two_fetching <= count holds_slot two_fetching /\
  count holds_slot two_fetching = sem two_fetching /\
  sem two_fetching <= Z.to_nat (concurrency (NewSubHunter 60 2 false)) /\
  count fetching two_fetching <= Z.to_nat (concurrency (NewSubHunter 60 2 false)).
Proof.
  split; [reflexivity|].
  apply (at_most_maxWorkers_in_flight decode_batch url_parses nets_batch
           (NewSubHunter 60 2 false) five_domains two_fetching).
  unfold reachable.
  eapply rtc_l.
  { apply (step_acquire decode_batch url_parses nets_batch 2 five_domains 0
             (start (NewSubHunter 60 2 false) five_domains)); [reflexivity | simpl; lia]. }
  eapply rtc_l; [|apply rtc_refl].
  apply (step_acquire decode_batch url_parses nets_batch 2 five_domains 1
           (mkPool [Running; Waiting; Waiting; Waiting; Waiting] 1 ∅
              (NewSubHunter 60 2 false))); [reflexivity | simpl; lia].
Defined.

(** ** More on strings *)

Lemma append_cons (a : ascii) (s t : string) :
  String a s +:+ t = String a (s +:+ t).
Proof. reflexivity. Qed.

Lemma append_nil_l (s : string) : "" +:+ s = s.
Proof. reflexivity. Qed.

Lemma append_nil_r (s : string) : s +:+ "" = s.
Proof. induction s as [|a s IH]; [done|]. by rewrite append_cons, IH. Qed.

Lemma append_assoc (s t u : string) : (s +:+ t) +:+ u = s +:+ (t +:+ u).
Proof. induction s as [|a s IH]; [done|]. by rewrite !append_cons, IH. Qed.

Lemma length_append (s t : string) :
  String.length (s +:+ t) = String.length s + String.length t.
Proof. induction s as [|a s IH]; [done|]. rewrite append_cons. simpl. by rewrite IH. Qed.

Lemma take_append (s t : string) : take (String.length s) (s +:+ t) = s.
Proof. induction s as [|a s IH]; [by destruct t|]. rewrite append_cons. simpl. by rewrite IH. Qed.

Lemma string_forall_append (p : ascii -> bool) (s t : string) :
  string_forall p (s +:+ t) = string_forall p s && string_forall p t.
Proof.
  induction s as [|a s IH]; [done|]. rewrite append_cons. simpl.
  by rewrite IH, andb_assoc.
Qed.

Lemma string_forall_impl (p q : ascii -> bool) (s : string) :
  (forall a, p a = true -> q a = true) ->
  string_forall p s = true -> string_forall q s = true.
Proof.
  intros Hpq. induction s as [|a s IH]; [done|]. simpl.
  intros [Ha Hs]%andb_true_iff. by rewrite (Hpq a Ha), IH.
Qed.

Lemma ToLower_append (s t : string) : ToLower (s +:+ t) = ToLower s +:+ ToLower t.
Proof. induction s as [|a s IH]; [done|]. rewrite append_cons. simpl. by rewrite IH. Qed.

Lemma ToLower_length (s : string) : String.length (ToLower s) = String.length s.
Proof. induction s as [|a s IH]; [done|]. simpl. by rewrite IH. Qed.

Lemma first_byte_append (s t : string) :
  s <> "" -> first_byte (s +:+ t) = first_byte s.
Proof. by destruct s. Qed.

Lemma last_byte_cons (a : ascii) (s : string) :
  s <> "" -> last_byte (String a s) = last_byte s.
Proof. by destruct s. Qed.

Lemma last_byte_append (s t : string) :
  t <> "" -> last_byte (s +:+ t) = last_byte t.
Proof.
  intros Ht. induction s as [|a s IH]; [done|].
  rewrite append_cons, last_byte_cons; [done|]. by destruct s, t.
Qed.

Lemma last_byte_snoc (s : string) (z : ascii) :
  last_byte s = Some z -> exists t, s = t +:+ String z "".
Proof.
  induction s as [|a s IH]; [done|].
  destruct s as [|b s].
  - intros [= ->]. by exists "".
  - rewrite last_byte_cons by done. intros [t Ht]%IH.
    exists (String a t). by rewrite append_cons, <- Ht.
Qed.

Lemma end_of_append (p : option ascii) (s t : string) :
  regexp.end_of p (s +:+ t) = regexp.end_of (regexp.end_of p s) t.
Proof. revert p. induction s as [|a s IH]; intros p; [done|]. rewrite append_cons. simpl. apply IH. Qed.

Lemma end_of_last (p : option ascii) (s : string) :
  s <> "" -> regexp.end_of p s = last_byte s.
Proof.
  revert p. induction s as [|a s IH]; intros p Hs; [done|].
  destruct s as [|b s]; [done|]. rewrite last_byte_cons by done.
  change (regexp.end_of p (String a (String b s)))
    with (regexp.end_of (Some a) (String b s)).
  by apply IH.
Qed.

(** [String.rev] *)
Lemma rev_app_append (s t u : string) :
  String.rev_app (s +:+ t) u = String.rev_app t (String.rev_app s u).
Proof. revert u. induction s as [|a s IH]; intros u; [done|]. rewrite append_cons. simpl. apply IH. Qed.

Lemma rev_app_rev_app (s t u : string) :
  String.rev_app (String.rev_app s t) u = String.rev_app t (s +:+ u).
Proof. revert t u. induction s as [|a s IH]; intros t u; [done|]. simpl. by rewrite IH. Qed.

Lemma rev_involutive (s : string) : String.rev (String.rev s) = s.
Proof. unfold String.rev. rewrite rev_app_rev_app. simpl. apply append_nil_r. Qed.

Lemma rev_snoc (s : string) (z : ascii) :
  String.rev (s +:+ String z "") = String z (String.rev s).
Proof. unfold String.rev. by rewrite rev_app_append. Qed.

Lemma Split_no_sep (s : string) (sep : ascii) :
  string_forall (fun a => negb (Ascii.eqb a sep)) s = true -> Split s sep = [s].
Proof.
  induction s as [|a s IH]; [done|]. simpl.
  intros [Ha Hs]%andb_true_iff. apply negb_true_iff in Ha. by rewrite Ha, IH.
Qed.

Lemma Split_parts_no_sep (s : string) (sep : ascii) (part : string) :
  part ∈ Split s sep -> string_forall (fun a => negb (Ascii.eqb a sep)) part = true.
Proof.
  revert part. induction s as [|a s IH]; intros part; simpl.
  - by intros ->%list_elem_of_singleton.
  - destruct (Ascii.eqb a sep) eqn:Ha.
    + intros [->|Hp]%elem_of_cons; [done | by apply IH].
    + destruct (Split s sep) as [|p ps] eqn:Hsp.
      * intros ->%list_elem_of_singleton. simpl. by rewrite Ha.
      * intros [->|Hp]%elem_of_cons.
        -- simpl. rewrite Ha. simpl. apply IH. by left.
        -- apply IH. by right.
Qed.

(** ** Bytes: classes, case and white space *)

Ltac by_cases_on_byte a :=
  destruct a as [[] [] [] [] [] [] [] []]; try discriminate; try reflexivity.

Lemma is_word_ascii (a : ascii) : regexp.is_word a = true -> is_ascii a = true.
Proof. by_cases_on_byte a. Qed.

Lemma is_word_not_space (a : ascii) : regexp.is_word a = true -> is_ascii_space a = false.
Proof. by_cases_on_byte a. Qed.

Lemma is_word_not_star (a : ascii) : regexp.is_word a = true -> Ascii.eqb a "*" = false.
Proof. by_cases_on_byte a. Qed.

Lemma alnum_is_word (a : ascii) : regexp.alnum a = true -> regexp.is_word a = true.
Proof. by_cases_on_byte a. Qed.

Lemma alnum_alnum_hyphen (a : ascii) :
  regexp.alnum a = true -> regexp.alnum_hyphen a = true.
Proof. unfold regexp.alnum_hyphen. by intros ->. Qed.

Lemma alnum_hyphen_not_dot (a : ascii) :
  regexp.alnum_hyphen a = true -> Ascii.eqb "." a = false.
Proof. by_cases_on_byte a. Qed.

Lemma lower_byte_idem (a : ascii) : lower_byte (lower_byte a) = lower_byte a.
Proof. by_cases_on_byte a. Qed.

Lemma alnum_lower (a : ascii) : regexp.alnum (lower_byte a) = regexp.alnum a.
Proof. by_cases_on_byte a. Qed.

Lemma alnum_hyphen_lower (a : ascii) :
  regexp.alnum_hyphen (lower_byte a) = regexp.alnum_hyphen a.
Proof. by_cases_on_byte a. Qed.

Lemma is_word_lower (a : ascii) : regexp.is_word (lower_byte a) = regexp.is_word a.
Proof. by_cases_on_byte a. Qed.

Lemma lower_byte_line_feed (a : ascii) :
  Ascii.eqb (lower_byte a) "010" = Ascii.eqb a "010".
Proof. by_cases_on_byte a. Qed.

Lemma fold_eq_lower (x a : ascii) : regexp.fold_eq x (lower_byte a) = regexp.fold_eq x a.
Proof. unfold regexp.fold_eq. by rewrite lower_byte_idem. Qed.

Lemma fold_eq_is_word (x a : ascii) :
  regexp.fold_eq x a = true -> regexp.is_word a = regexp.is_word x.
Proof.
  unfold regexp.fold_eq. intros H%Ascii.eqb_eq.
  by rewrite <- (is_word_lower a), <- (is_word_lower x), H.
Qed.

Lemma ascii_not_space2_l (a b : ascii) : is_ascii a = true -> space2 a b = false.
Proof. by_cases_on_byte a. Qed.

Lemma ascii_not_space3_l (a b c : ascii) : is_ascii a = true -> space3 a b c = false.
Proof. by_cases_on_byte a. Qed.

Lemma ascii_not_space2_r (a b : ascii) : is_ascii a = true -> space2 b a = false.
Proof.
  unfold space2. destruct (byte b =? 194)%N; [|done].
  by_cases_on_byte a.
Qed.

Lemma ascii_not_space3_r (a b c : ascii) : is_ascii a = true -> space3 c b a = false.
Proof.
  unfold space3.
  destruct (byte c =? 225)%N, (byte c =? 226)%N, (byte c =? 227)%N,
    (byte b =? 154)%N, (byte b =? 128)%N, (byte b =? 129)%N;
    by_cases_on_byte a.
Qed.

Lemma ToLower_idem (s : string) : ToLower (ToLower s) = ToLower s.
Proof. induction s as [|a s IH]; [done|]. simpl. by rewrite lower_byte_idem, IH. Qed.

Lemma ToLower_no_line_feed (s : string) :
  string_forall (fun a => negb (Ascii.eqb a "010")) (ToLower s)
  = string_forall (fun a => negb (Ascii.eqb a "010")) s.
Proof. induction s as [|a s IH]; [done|]. simpl. by rewrite lower_byte_line_feed, IH. Qed.

Lemma first_byte_ToLower (s : string) :
  first_byte (ToLower s) = lower_byte <$> first_byte s.
Proof. by destruct s. Qed.

Lemma last_byte_ToLower (s : string) :
  last_byte (ToLower s) = lower_byte <$> last_byte s.
Proof.
  induction s as [|a s IH]; [done|]. destruct s as [|b s]; [done|].
  rewrite last_byte_cons by done. rewrite <- IH. simpl ToLower.
  by rewrite last_byte_cons.
Qed.

(** ** Trimming leaves a string between word bytes alone *)

Lemma trim_front_stop (two : ascii -> ascii -> bool)
    (three : ascii -> ascii -> ascii -> bool) (a : ascii) (s : string) :
  is_ascii_space a = false ->
  (forall b, two a b = false) ->
  (forall b c, three a b c = false) ->
  trim_front two three (String a s) = String a s.
Proof.
  intros Hs H2 H3. simpl. rewrite Hs.
  destruct s as [|b [|c s]]; [done | by rewrite H2 | by rewrite H2, H3].
Qed.

Lemma TrimSpace_between_words (s : string) :
  regexp.is_word_opt (first_byte s) = true ->
  regexp.is_word_opt (last_byte s) = true ->
  TrimSpace s = s.
Proof.
  intros Hfirst Hlast. unfold TrimSpace, TrimLeftSpace, TrimRightSpace.
  destruct s as [|a s]; [done|]. simpl in Hfirst.
  rewrite trim_front_stop;
    [ | by apply is_word_not_space
      | intros; by apply ascii_not_space2_l, is_word_ascii
      | intros; by apply ascii_not_space3_l, is_word_ascii ].
  destruct (last_byte (String a s)) as [z|] eqn:Hz; [|done]. simpl in Hlast.
  destruct (last_byte_snoc _ _ Hz) as [t Ht]. rewrite Ht, rev_snoc.
  rewrite trim_front_stop;
    [ | by apply is_word_not_space
      | intros; by apply ascii_not_space2_r, is_word_ascii
      | intros; by apply ascii_not_space3_r, is_word_ascii ].
  by rewrite <- rev_snoc, rev_involutive.
Qed.

Lemma TrimPrefix_star_dot_word (s : string) :
  regexp.is_word_opt (first_byte s) = true -> TrimPrefix s "*." = s.
Proof.
  intros Hfirst. apply TrimPrefix_no_prefix.
  destruct s as [|a s]; [done|]. simpl in *.
  by rewrite (is_word_not_star a Hfirst).
Qed.

(** ** The regular expression: what a match looks like *)

Import regexp.

Lemma chr_cons (p : ascii -> bool) (q : option ascii) (a : ascii) (r : string) :
  chr p (q, String a r) = if p a then [(Some a, r)] else [].
Proof. reflexivity. Qed.

Lemma in_chr (p : ascii -> bool) (c c' : cursor) :
  In c' (chr p c) -> exists a, p a = true /\ snd c = String a (snd c') /\ fst c' = Some a.
Proof.
  destruct c as [q [|a r]]; [done|]. rewrite chr_cons.
  destruct (p a) eqn:Ha; [|done]. intros [<-|[]]. by exists a.
Qed.

Lemma flat_map_singleton {A B : Type} (f : A -> list B) (x : A) :
  flat_map f [x] = f x.
Proof. simpl. apply app_nil_r. Qed.

Lemma flat_map_nil_on {A B : Type} (f : A -> list B) (l : list A) :
  (forall x, In x l -> f x = []) -> flat_map f l = [].
Proof.
  induction l as [|x l IH]; intros H; [done|]. simpl.
  rewrite (H x) by (by left). apply IH. intros y Hy. apply H. by right.
Qed.

Lemma flat_map_ext_on {A B : Type} (f g : A -> list B) (l : list A) :
  (forall x, In x l -> f x = g x) -> flat_map f l = flat_map g l.
Proof.
  induction l as [|x l IH]; intros H; [done|]. simpl.
  rewrite (H x) by (by left). f_equal. apply IH. intros y Hy. apply H. by right.
Qed.

Lemma in_shorter (c c' : cursor) (l : list cursor) :
  In c' (List.filter (shorter c) l) <-> In c' l /\ remaining c' < remaining c.
Proof. rewrite filter_In. unfold shorter. by rewrite Nat.ltb_lt. Qed.

(** The fuel [star] supplies is enough: more fuel changes nothing. *)
Lemma star_fuel_enough (r : matcher) (n : nat) :
  forall m c, remaining c <= n -> remaining c <= m ->
              star_fuel n r c = star_fuel m r c.
Proof.
  induction n as [|n IH]; intros [|m] c Hn Hm; simpl; try done.
  - rewrite flat_map_nil_on; [done|].
    intros c' [_ Hc']%in_shorter. lia.
  - rewrite flat_map_nil_on; [done|].
    intros c' [_ Hc']%in_shorter. lia.
  - f_equal. apply flat_map_ext_on.
    intros c' [_ Hc']%in_shorter. apply IH; lia.
Qed.

Lemma star_unfold (r : matcher) (c : cursor) :
  star r c = flat_map (star r) (List.filter (shorter c) (r c)) ++ [c].
Proof.
  unfold star at 1. destruct (remaining c) as [|n] eqn:Hn; simpl.
  - rewrite flat_map_nil_on; [done|].
    intros c' [_ Hc']%in_shorter. lia.
  - f_equal. apply flat_map_ext_on.
    intros c' [_ Hc']%in_shorter. unfold star. apply star_fuel_enough; lia.
Qed.

Lemma star_fuel_remaining (r : matcher) (n : nat) :
  forall c c', In c' (star_fuel n r c) -> remaining c' <= remaining c.
Proof.
  induction n as [|n IH]; intros c c'; simpl.
  - intros [<-|[]]. done.
  - rewrite in_app_iff, in_flat_map.
    intros [(c1 & [_ Hc1]%in_shorter & Hc')|[<-|[]]]; [|done].
    apply IH in Hc'. lia.
Qed.

(** Soundness: what is consumed between a position and a position a
    sub-pattern can end at. *)
Lemma rep_upto_sound (p : ascii -> bool) (n : nat) :
  forall c c', In c' (rep_upto n (chr p) c) ->
    exists u, string_forall p u = true /\ String.length u <= n /\
              snd c = u +:+ snd c'.
Proof.
  induction n as [|n IH]; intros c c'; simpl.
  - intros [<-|[]]. by exists "".
  - rewrite in_app_iff, in_flat_map.
    intros [(c1 & Hc1 & Hc')|[<-|[]]].
    2:{ exists "". repeat split; simpl; lia. }
    apply in_chr in Hc1 as (a & Ha & Hc & _).
    apply IH in Hc' as (u & Hu & Hlen & Hc1).
    exists (String a u). simpl. rewrite Ha, Hu. repeat split; [lia|].
    by rewrite Hc, Hc1.
Qed.

Lemma label_sound (c c' : cursor) :
  In c' (label c) -> exists l, is_label l /\ snd c = l +:+ snd c'.
Proof.
  unfold label, seq, opt. rewrite in_flat_map.
  intros (c1 & Hc1 & Hc'). apply in_chr in Hc1 as (a & Ha & Hc & _).
  apply in_app_iff in Hc' as [Hc'|[<-|[]]].
  - apply in_flat_map in Hc' as (c2 & Hc2 & Hc').
    apply rep_upto_sound in Hc2 as (u & Hu & Hlen & Hc1).
    apply in_chr in Hc' as (b & Hb & Hc2 & _).
    exists (String a (u +:+ String b "")). split; [by constructor|].
    rewrite Hc, Hc1, Hc2. rewrite append_cons, append_assoc. done.
  - exists (String a ""). split; [by constructor | done].
Qed.

Lemma label_dot_sound (c c' : cursor) :
  In c' (seq label (chr (Ascii.eqb ".")) c) ->
  exists l, is_label l /\ snd c = l +:+ "." +:+ snd c'.
Proof.
  unfold seq. rewrite in_flat_map. intros (c1 & Hc1 & Hc').
  apply label_sound in Hc1 as (l & Hl & Hc).
  apply in_chr in Hc' as (a & Ha%Ascii.eqb_eq & Hc1 & _). subst a.
  exists l. split; [done|]. by rewrite Hc, Hc1.
Qed.

Lemma labels_fuel_sound (n : nat) :
  forall c c', In c' (star_fuel n (seq label (chr (Ascii.eqb "."))) c) ->
    exists L, labels_dot L /\ snd c = L +:+ snd c'.
Proof.
  induction n as [|n IH]; intros c c'; simpl.
  - intros [<-|[]]. exists "". split; [constructor | done].
  - rewrite in_app_iff, in_flat_map.
    intros [(c1 & [Hc1 _]%in_shorter & Hc')|[<-|[]]].
    + apply label_dot_sound in Hc1 as (l & Hl & Hc).
      apply IH in Hc' as (L & HL & Hc1).
      exists (l +:+ "." +:+ L). split; [by constructor|].
      rewrite Hc, Hc1. by rewrite !append_assoc.
    + exists "". split; [constructor | done].
Qed.

Lemma literal_fold_sound (lit : string) :
  forall c c', In c' (literal_fold lit c) ->
    exists s, fold_equal lit s = true /\ snd c = s +:+ snd c'.
Proof.
  induction lit as [|x lit IH]; intros c c'; simpl.
  - intros [<-|[]]. by exists "".
  - unfold seq. rewrite in_flat_map. intros (c1 & Hc1 & Hc').
    apply in_chr in Hc1 as (a & Ha & Hc & _).
    apply IH in Hc' as (s & Hs & Hc1).
    exists (String a s). simpl. rewrite Ha, Hs. split; [done|]. by rewrite Hc, Hc1.
Qed.

Lemma in_word_boundary (c c' : cursor) : In c' (word_boundary c) -> c' = c.
Proof.
  unfold word_boundary. destruct (xorb _ _); [|done]. by intros [<-|[]].
Qed.

Lemma pattern_sound (domain : string) (c c' : cursor) :
  In c' (pattern domain c) ->
  exists L s, labels_dot L /\ fold_equal domain s = true /\
              snd c = L +:+ s +:+ snd c'.
Proof.
  unfold pattern, seq. rewrite in_flat_map. intros (c0 & ->%in_word_boundary & H).
  apply in_flat_map in H as (c1 & Hc1 & H).
  apply in_flat_map in H as (c2 & Hc2 & ->%in_word_boundary).
  apply labels_fuel_sound in Hc1 as (L & HL & Hc).
  apply literal_fold_sound in Hc2 as (s & Hs & Hc1).
  exists L, s. repeat split; try done. by rewrite Hc, Hc1.
Qed.

Lemma fold_equal_length (lit s : string) :
  fold_equal lit s = true -> String.length s = String.length lit.
Proof.
  revert s. induction lit as [|x lit IH]; intros [|a s]; simpl; try done.
  intros [_ H]%andb_true_iff. by rewrite (IH s H).
Qed.

(** A match is a run of labels followed by the target, up to case. *)
Lemma match_at_sound (domain : string) (c : cursor) (n : nat) :
  match_at domain c = Some n ->
  exists L s, labels_dot L /\ fold_equal domain s = true /\
              take n (snd c) = L +:+ s /\ n = String.length (L +:+ s).
Proof.
  unfold match_at. destruct (pattern domain c) as [|c' cs] eqn:Hp; [done|].
  intros [= <-].
  destruct (pattern_sound domain c c') as (L & s & HL & Hs & Hc).
  { rewrite Hp. by left. }
  exists L, s. repeat split; try done.
  - unfold remaining. rewrite Hc, <- append_assoc, length_append.
    replace (_ + _ - _) with (String.length (L +:+ s)) by lia.
    apply take_append.
  - unfold remaining. rewrite Hc, <- append_assoc, length_append. lia.
Qed.

(** ** The regular expression on a run of labels followed by the target *)

Lemma rep_upto_S (r : matcher) (n : nat) (c : cursor) :
  rep_upto (S n) r c = flat_map (rep_upto n r) (r c) ++ [c].
Proof. reflexivity. Qed.

Lemma rep_upto_stop (r : matcher) (n : nat) (c : cursor) :
  r c = [] -> rep_upto n r c = [c].
Proof. intros H. destruct n; [done|]. by rewrite rep_upto_S, H. Qed.

Lemma chr_dot (q : option ascii) (r : string) :
  chr (Ascii.eqb ".") (q, String "." r) = [(Some "."%char, r)].
Proof. reflexivity. Qed.

Lemma chr_not_dot (q : option ascii) (a : ascii) (r : string) :
  alnum_hyphen a = true -> chr (Ascii.eqb ".") (q, String a r) = [].
Proof. intros Ha. rewrite chr_cons. by rewrite (alnum_hyphen_not_dot a Ha). Qed.

Lemma chr_alnum_hyphen_dot (q : option ascii) (r : string) :
  chr alnum_hyphen (q, String "." r) = [].
Proof. reflexivity. Qed.

Lemma chr_alnum_dot (q : option ascii) (r : string) :
  chr alnum (q, String "." r) = [].
Proof. reflexivity. Qed.

Lemma flat_map_flat_map {A B C : Type} (f : A -> list B) (g : B -> list C)
    (l : list A) :
  flat_map g (flat_map f l) = flat_map (fun x => flat_map g (f x)) l.
Proof.
  induction l as [|x l IH]; [done|]. simpl. by rewrite flat_map_app, IH.
Qed.

(** A dot cannot follow at a position inside a label. *)
Lemma dot_after_byte_inside (u : string) (b : ascii) (r : string) (q : option ascii) :
  string_forall alnum_hyphen u = true -> alnum b = true ->
  chr (Ascii.eqb ".") (q, u +:+ String b (String "." r)) = [].
Proof.
  intros Hu Hb. destruct u as [|a u].
  - rewrite append_nil_l. by apply chr_not_dot, alnum_alnum_hyphen.
  - rewrite append_cons. apply chr_not_dot.
    simpl in Hu. by apply andb_true_iff in Hu as [? _].
Qed.

(** After the first byte of a label: of all the ways to go on, only the one
    that reads the label to its end is followed by a dot. *)
Lemma label_tail (u : string) (b : ascii) (r : string) :
  string_forall alnum_hyphen u = true -> alnum b = true ->
  forall n q, String.length u <= n ->
    flat_map (fun c => flat_map (chr (Ascii.eqb ".")) (chr alnum c))
      (rep_upto n (chr alnum_hyphen) (q, u +:+ String b (String "." r)))
    = [(Some "."%char, r)].
Proof.
  intros Hu Hb. pose proof (alnum_alnum_hyphen b Hb) as Hb'.
  induction u as [|a u IH]; intros n q Hn.
  - rewrite append_nil_l.
    assert (flat_map (chr (Ascii.eqb ".")) (chr alnum (q, String b (String "." r)))
            = [(Some "."%char, r)]) as Hlast.
    { rewrite chr_cons, Hb. by rewrite flat_map_singleton, chr_dot. }
    destruct n as [|n].
    + change (rep_upto 0 (chr alnum_hyphen) (q, String b (String "." r)))
        with [(q, String b (String "." r))].
      by rewrite flat_map_singleton.
    + rewrite rep_upto_S, chr_cons, Hb', flat_map_singleton.
      rewrite rep_upto_stop by apply chr_alnum_hyphen_dot.
      rewrite flat_map_app, !flat_map_singleton, chr_alnum_dot.
      exact Hlast.
  - simpl in Hu. apply andb_true_iff in Hu as [Ha Hu].
    destruct n as [|n]; [simpl in Hn; lia|].
    rewrite append_cons, rep_upto_S.
    rewrite chr_cons, Ha, flat_map_singleton, flat_map_app.
    rewrite (IH Hu n (Some a)) by (simpl in Hn; lia).
    rewrite flat_map_singleton, chr_cons.
    destruct (alnum a); [|done].
    by rewrite flat_map_singleton, dot_after_byte_inside.
Qed.

Lemma label_dot_complete (l : string) (q : option ascii) (r : string) :
  is_label l ->
  seq label (chr (Ascii.eqb ".")) (q, l +:+ String "." r) = [(Some "."%char, r)].
Proof.
  intros Hl. unfold seq, label, seq, opt.
  destruct Hl as [a Ha | a u b Ha Hu Hlen Hb].
  - rewrite append_cons, append_nil_l, chr_cons, Ha, !flat_map_singleton.
    rewrite rep_upto_stop by apply chr_alnum_hyphen_dot.
    rewrite flat_map_singleton, chr_alnum_dot, app_nil_l, flat_map_singleton.
    apply chr_dot.
  - rewrite append_cons, append_assoc, append_cons, append_nil_l.
    rewrite chr_cons, Ha, !flat_map_singleton, flat_map_app.
    rewrite flat_map_singleton, dot_after_byte_inside by done.
    rewrite app_nil_r, flat_map_flat_map. by apply label_tail.
Qed.

Lemma literal_fold_complete (lit : string) :
  forall s q r, fold_equal lit s = true ->
                literal_fold lit (q, s +:+ r) = [(end_of q s, r)].
Proof.
  induction lit as [|x lit IH]; intros [|a s] q r; simpl; try done.
  intros [Ha Hs]%andb_true_iff. unfold seq.
  rewrite append_cons, chr_cons, Ha, flat_map_singleton. by apply IH.
Qed.

Lemma literal_fold_short (lit : string) :
  forall c, remaining c < String.length lit -> literal_fold lit c = [].
Proof.
  induction lit as [|x lit IH]; intros [q [|a r]]; unfold remaining; simpl; try lia; try done.
  intros Hlen. unfold seq. rewrite chr_cons.
  destruct (fold_eq x a); [|done]. rewrite flat_map_singleton.
  apply IH. unfold remaining. simpl. lia.
Qed.

Lemma shorter_after_label (l t : string) (q q' : option ascii) :
  shorter (q, l +:+ String "." t) (q', t) = true.
Proof.
  unfold shorter, remaining. cbn [snd]. apply Nat.ltb_lt.
  rewrite length_append. simpl. lia.
Qed.

(** The positions [labels] can end at, on a run of labels followed by [s]:
    the end of the run is one of them, and those tried before it leave less
    than [s]. *)
Lemma labels_complete (L : string) (s : string) :
  labels_dot L ->
  forall q, exists before after,
    labels (q, L +:+ s) = before ++ (end_of q L, s) :: after /\
    (forall c, In c before -> remaining c < String.length s).
Proof.
  intros HL. induction HL as [|l L Hl HL IH]; intros q.
  - rewrite append_nil_l. unfold labels. rewrite star_unfold.
    eexists _, []. split; [reflexivity|].
    intros c (c1 & [_ Hc1]%in_shorter & Hc)%in_flat_map.
    apply star_fuel_remaining in Hc. unfold remaining in *. simpl in *. lia.
  - destruct (IH (Some "."%char)) as (before & after & Hrun & Hbefore).
    unfold labels in *. rewrite star_unfold.
    change (l +:+ "." +:+ L) with (l +:+ String "." L). rewrite append_assoc, append_cons.
    rewrite label_dot_complete by done.
    assert (List.filter (shorter (q, l +:+ String "." (L +:+ s))) [(Some "."%char, L +:+ s)]
            = [(Some "."%char, L +:+ s)]) as ->.
    { cbn [List.filter]. by rewrite shorter_after_label. }
    rewrite flat_map_singleton, Hrun.
    exists before, (after ++ [(q, l +:+ String "." (L +:+ s))]). split.
    + rewrite <- app_assoc. simpl. f_equal. f_equal.
      by rewrite end_of_append.
    + done.
Qed.

Lemma word_boundary_yes (c : cursor) :
  xorb (is_word_opt (fst c)) (is_word_opt (first_byte (snd c))) = true ->
  word_boundary c = [c].
Proof. unfold word_boundary, next_byte. by intros ->. Qed.

Lemma fold_equal_nonempty (lit s : string) :
  fold_equal lit s = true -> lit <> "" -> s <> "".
Proof. by destruct lit, s. Qed.

Lemma fold_equal_first (lit s : string) :
  fold_equal lit s = true ->
  is_word_opt (first_byte s) = is_word_opt (first_byte lit).
Proof.
  destruct lit as [|x lit], s as [|a s]; try done. simpl.
  intros [Ha _]%andb_true_iff. by apply fold_eq_is_word.
Qed.

Lemma fold_equal_last (lit : string) :
  forall s, fold_equal lit s = true ->
            is_word_opt (last_byte s) = is_word_opt (last_byte lit).
Proof.
  induction lit as [|x lit IH]; intros [|a s]; try done.
  simpl fold_equal. intros [Ha Hs]%andb_true_iff.
  destruct lit as [|y lit], s as [|b s]; try done.
  - simpl. by apply fold_eq_is_word.
  - rewrite !last_byte_cons by done. by apply IH.
Qed.

(** On a run of labels followed by the target, between word boundaries, the
    first match found is the whole text. *)
Lemma match_at_complete (domain L s : string) (q : option ascii) :
  labels_dot L -> fold_equal domain s = true ->
  xorb (is_word_opt q) (is_word_opt (first_byte (L +:+ s))) = true ->
  is_word_opt (last_byte s) = true ->
  match_at domain (q, L +:+ s) = Some (String.length (L +:+ s)).
Proof.
  intros HL Hs Hstart Hend.
  assert (s <> "") as Hne by (by destruct s).
  unfold match_at, pattern, seq.
  rewrite word_boundary_yes by done. rewrite flat_map_singleton.
  destruct (labels_complete L s HL q) as (before & after & -> & Hbefore).
  rewrite flat_map_app.
  rewrite (flat_map_nil_on _ before).
  2:{ intros c Hc. rewrite literal_fold_short; [done|].
      rewrite <- (fold_equal_length domain s Hs). by apply Hbefore. }
  rewrite app_nil_l. cbn [flat_map].
  rewrite <- (append_nil_r s) at 1.
  rewrite literal_fold_complete by done. rewrite flat_map_singleton.
  rewrite word_boundary_yes.
  2:{ cbn [fst snd first_byte is_word_opt]. rewrite end_of_last by done.
      by rewrite Hend. }
  cbn [app]. unfold remaining. cbn [snd]. simpl String.length at 2.
  f_equal. lia.
Qed.

Lemma match_at_empty_text (domain : string) (q : option ascii) :
  domain <> "" -> match_at domain (q, "") = None.
Proof.
  intros Hd. destruct (match_at domain (q, "")) as [n|] eqn:Hm; [|done].
  destruct (match_at_sound _ _ _ Hm) as (L & s & _ & Hs & Htake & _).
  assert (take n "" = "") as Hnil by (by destruct n).
  cbn [snd] in Htake. rewrite Hnil in Htake.
  destruct L; [|done]. rewrite append_nil_l in Htake. subst s.
  by destruct domain.
Qed.

Lemma find_all_skip (domain : string) :
  domain <> "" ->
  forall s q, find_all domain (String.length s) true q s = [].
Proof.
  intros Hd. induction s as [|a s IH]; intros q.
  - cbn [String.length find_all]. by rewrite match_at_empty_text.
  - cbn [String.length find_all]. apply IH.
Qed.

Lemma take_all (s : string) : take (String.length s) s = s.
Proof. rewrite <- (append_nil_r s) at 2. apply take_append. Qed.

Lemma FindAllString_whole (domain L s : string) :
  labels_dot L -> fold_equal domain s = true ->
  is_word_opt (first_byte (L +:+ s)) = true ->
  is_word_opt (last_byte s) = true ->
  FindAllString domain (L +:+ s) = [L +:+ s].
Proof.
  intros HL Hs Hstart Hend.
  assert (domain <> "") as Hd by (by destruct domain, s).
  pose proof (match_at_complete domain L s None HL Hs) as Hm.
  cbn [is_word_opt xorb] in Hm. specialize (Hm Hstart Hend).
  unfold FindAllString.
  destruct (L +:+ s) as [|a x] eqn:Hx; [done|].
  cbn [find_all]. rewrite Hm. cbn [String.length].
  rewrite find_all_skip by done.
  f_equal. apply (take_all (String a x)).
Qed.

(** Every match [FindAllString] reports starts somewhere in the text. *)
Lemma find_all_sound (domain : string) :
  forall s skip adjacent q m,
    In m (find_all domain skip adjacent q s) ->
    exists q' s0 s1 n,
      s = s0 +:+ s1 /\ match_at domain (q', s1) = Some n /\ m = take n s1.
Proof.
  induction s as [|a s IH]; intros skip adjacent q m.
  - destruct skip as [|k]; cbn [find_all]; [|done].
    destruct (match_at domain (q, "")) as [[|n]|] eqn:Hm; [| |done].
    + rewrite app_nil_r. destruct adjacent; [done|]. intros [<-|[]].
      by exists q, "", "", 0.
    + intros [<-|[]]. by exists q, "", "", (S n).
  - assert (forall k adj, In m (find_all domain k adj (Some a) s) ->
              exists q' s0 s1 n,
                String a s = s0 +:+ s1 /\ match_at domain (q', s1) = Some n
                /\ m = take n s1) as Hrest.
    { intros k adj (q' & s0 & s1 & n & -> & Hm & ->)%IH.
      by exists q', (String a s0), s1, n. }
    destruct skip as [|k]; cbn [find_all]; [|by apply Hrest].
    destruct (match_at domain (q, String a s)) as [[|n]|] eqn:Hm.
    + intros [Hin|Hin]%in_app_iff; [|by eapply Hrest].
      destruct adjacent; [done|]. destruct Hin as [<-|[]].
      by exists q, "", (String a s), 0.
    + intros [<-|Hin]; [|by eapply Hrest].
      by exists q, "", (String a s), (S n).
    + by apply Hrest.
Qed.

Lemma string_forall_take (p : ascii -> bool) (n : nat) :
  forall s, string_forall p s = true -> string_forall p (take n s) = true.
Proof.
  induction n as [|n IH]; intros [|a s]; simpl; try done.
  intros [Ha Hs]%andb_true_iff. by rewrite Ha, IH.
Qed.

(** A reported match is a run of labels followed by the target, up to case,
    and it is made of bytes of the text. *)
Lemma FindAllString_sound (domain text m : string) :
  In m (FindAllString domain text) ->
  exists L s, labels_dot L /\ fold_equal domain s = true /\ m = L +:+ s /\
              (forall p, string_forall p text = true -> string_forall p m = true).
Proof.
  intros (q' & s0 & s1 & n & Htext & Hm & ->)%find_all_sound.
  destruct (match_at_sound _ _ _ Hm) as (L & s & HL & Hs & Htake & _).
  cbn [snd] in Htake.
  exists L, s. repeat split; try done.
  intros p Hp. apply string_forall_take.
  rewrite Htext, string_forall_append in Hp. by apply andb_true_iff in Hp as [_ ?].
Qed.

(** ** Lower case keeps the shape of a match *)

Lemma string_forall_ToLower (p : ascii -> bool) (s : string) :
  (forall a, p (lower_byte a) = p a) ->
  string_forall p (ToLower s) = string_forall p s.
Proof. intros Hp. induction s as [|a s IH]; [done|]. simpl. by rewrite Hp, IH. Qed.

Lemma is_label_lower (l : string) : is_label l -> is_label (ToLower l).
Proof.
  intros [a Ha | a u b Ha Hu Hlen Hb]; simpl.
  - constructor. by rewrite alnum_lower.
  - rewrite ToLower_append. simpl. constructor.
    + by rewrite alnum_lower.
    + by rewrite string_forall_ToLower by apply alnum_hyphen_lower.
    + by rewrite ToLower_length.
    + by rewrite alnum_lower.
Qed.

Lemma labels_dot_lower (L : string) : labels_dot L -> labels_dot (ToLower L).
Proof.
  induction 1 as [|l L Hl HL IH]; [constructor|].
  rewrite !ToLower_append. change (ToLower ".") with ".".
  constructor; [by apply is_label_lower | done].
Qed.

Lemma fold_equal_lower (lit : string) :
  forall s, fold_equal lit (ToLower s) = fold_equal lit s.
Proof.
  induction lit as [|x lit IH]; intros [|a s]; simpl; try done.
  by rewrite fold_eq_lower, IH.
Qed.

Lemma is_label_first (l : string) :
  is_label l -> is_word_opt (first_byte l) = true.
Proof. intros [a Ha | a u b Ha _ _ _]; simpl; by apply alnum_is_word. Qed.

Lemma labels_dot_first (L s : string) :
  labels_dot L -> is_word_opt (first_byte s) = true ->
  is_word_opt (first_byte (L +:+ s)) = true.
Proof.
  intros [|l L' Hl _] Hs; [done|].
  pose proof (is_label_first l Hl) as Hfirst.
  destruct l as [|a l]; [done|]. done.
Qed.

(** ** The extractor: what is in the set *)

Lemma add_match_unfold (domain : string) (set : gset string) (m : string) :
  add_match domain set m =
  if accepted domain (normalise m) then {[ normalise m ]} ∪ set else set.
Proof. reflexivity. Qed.

Lemma elem_of_foldl_gset {A : Type} (f : gset string -> A -> gset string)
    (P : A -> string -> Prop) :
  (forall set a x, x ∈ f set a <-> x ∈ set \/ P a x) ->
  forall l set x, x ∈ foldl f set l <-> x ∈ set \/ exists a, In a l /\ P a x.
Proof.
  intros Hf. induction l as [|a l IH]; intros set x; simpl.
  - split; [by left | by intros [?|(? & [] & _)]].
  - rewrite IH, Hf. split.
    + intros [[?|?]|(b & ? & ?)]; eauto 6.
    + intros [?|(b & [<-|?] & ?)]; eauto 6.
Qed.

Lemma elem_of_add_match (domain : string) (set : gset string) (m x : string) :
  x ∈ add_match domain set m <->
  x ∈ set \/ (x = normalise m /\ accepted domain x = true).
Proof.
  rewrite add_match_unfold.
  destruct (accepted domain (normalise m)) eqn:Hacc.
  - rewrite elem_of_union, elem_of_singleton. split.
    + intros [->|?]; [by right | by left].
    + intros [?|[-> _]]; [by right | by left].
  - split; [by left|]. intros [?|[-> ?]]; [done | congruence].
Qed.

Lemma elem_of_add_entry (domain : string) (set : gset string) (entry x : string) :
  x ∈ add_entry domain set entry <->
  x ∈ set \/ exists m, In m (regexp.FindAllString domain entry)
                       /\ x = normalise m /\ accepted domain x = true.
Proof.
  unfold add_entry.
  apply (elem_of_foldl_gset (add_match domain)
           (fun m x => x = normalise m /\ accepted domain x = true)).
  intros. apply elem_of_add_match.
Qed.

Lemma elem_of_add_nameValue (domain : string) (set : gset string) (nameValue x : string) :
  x ∈ add_nameValue domain set nameValue <->
  x ∈ set \/ exists entry, In entry (Split nameValue "010") /\
               exists m, In m (regexp.FindAllString domain entry)
                         /\ x = normalise m /\ accepted domain x = true.
Proof.
  unfold add_nameValue.
  apply (elem_of_foldl_gset (add_entry domain)
           (fun entry x => exists m, In m (regexp.FindAllString domain entry)
                                     /\ x = normalise m /\ accepted domain x = true)).
  intros. apply elem_of_add_entry.
Qed.

Lemma elem_of_subdomainSet (domain : string) (nameValues : list string) (x : string) :
  x ∈ foldl (add_nameValue domain) ∅ nameValues <->
  exists nameValue, In nameValue nameValues /\
    exists entry, In entry (Split nameValue "010") /\
      exists m, In m (regexp.FindAllString domain entry)
                /\ x = normalise m /\ accepted domain x = true.
Proof.
  rewrite (elem_of_foldl_gset (add_nameValue domain)
             (fun nameValue x =>
                exists entry, In entry (Split nameValue "010") /\
                  exists m, In m (regexp.FindAllString domain entry)
                            /\ x = normalise m /\ accepted domain x = true)).
  - split; [intros [?|?]; [set_solver | done] | by right].
  - intros. apply elem_of_add_nameValue.
Qed.

(** ** The extractor on its own output *)

(** A subdomain the extractor returns, for a target between word bytes, is
    returned again when it is the text: it is one line, it is its own only
    match and its own normal form. *)
Lemma extracted_is_fixed (domain entry m : string) :
  is_word_opt (first_byte domain) = true ->
  is_word_opt (last_byte domain) = true ->
  string_forall (fun a => negb (Ascii.eqb a "010")) entry = true ->
  In m (regexp.FindAllString domain entry) ->
  Split (normalise m) "010" = [normalise m] /\
  regexp.FindAllString domain (normalise m) = [normalise m] /\
  normalise (normalise m) = normalise m.
Proof.
  intros Hfirst Hlast Hline Hm.
  destruct (FindAllString_sound _ _ _ Hm) as (L & s & HL & Hs & -> & Hbytes).
  assert (domain <> "") as Hd by (by destruct domain).
  pose proof (fold_equal_nonempty _ _ Hs Hd) as Hne.
  assert (is_word_opt (first_byte (L +:+ s)) = true) as Hf.
  { apply labels_dot_first; [done|]. by rewrite (fold_equal_first _ _ Hs). }
  assert (is_word_opt (last_byte (L +:+ s)) = true) as Hl.
  { rewrite last_byte_append by done. by rewrite (fold_equal_last _ _ Hs). }
  assert (normalise (L +:+ s) = ToLower L +:+ ToLower s) as Hnorm.
  { unfold normalise. rewrite TrimSpace_between_words by done.
    rewrite TrimPrefix_star_dot_word; [apply ToLower_append|].
    rewrite first_byte_ToLower. destruct (first_byte (L +:+ s)); [|done].
    simpl in *. by rewrite is_word_lower. }
  rewrite Hnorm.
  pose proof (labels_dot_lower L HL) as HL'.
  assert (fold_equal domain (ToLower s) = true) as Hs' by (by rewrite fold_equal_lower).
  assert (is_word_opt (first_byte (ToLower L +:+ ToLower s)) = true) as Hf'.
  { apply labels_dot_first; [done|]. by rewrite (fold_equal_first _ _ Hs'). }
  assert (is_word_opt (last_byte (ToLower s)) = true) as Hls'.
  { by rewrite (fold_equal_last _ _ Hs'). }
  assert (is_word_opt (last_byte (ToLower L +:+ ToLower s)) = true) as Hl'.
  { rewrite last_byte_append; [done|]. by eapply fold_equal_nonempty. }
  split; [|split].
  - apply Split_no_sep. rewrite <- ToLower_append, ToLower_no_line_feed.
    by apply Hbytes.
  - by apply FindAllString_whole.
  - unfold normalise. rewrite TrimSpace_between_words by done.
    rewrite <- ToLower_append, ToLower_idem, ToLower_append.
    by apply TrimPrefix_star_dot_word.
Qed.

(** C4: on the raw entries of the example and the target [example.com] the
    extractor returns exactly the three names, sorted, in lower case and
    without the wildcard label; the unrelated name is left out, and entries
    that differ in case only give one name. *)
Theorem extractSubdomains_example :
  extractSubdomains "example.com" raw_example
    = ["bar.example.com"; "baz.example.com"; "foo.example.com"] /\
  extractSubdomains "example.com"
    ["foo.example.com"; "FOO.Example.COM"; "*.foo.EXAMPLE.com"]
    = ["foo.example.com"].
Proof. split; by vm_compute. Qed.

(** C8, as the claim states it, fails: for the target [-a.com] the entry
    [x-a.com] gives the subdomain [-a.com], and from [-a.com] as the entry
    nothing is extracted, because no word boundary precedes the hyphen at
    the start of the text. *)
Lemma extractSubdomains_not_idempotent :
  extractSubdomains "-a.com" ["x-a.com"] = ["-a.com"] /\
  extractSubdomains "-a.com" (extractSubdomains "-a.com" ["x-a.com"]) = [] /\
  extractSubdomains "-a.com" (extractSubdomains "-a.com" ["x-a.com"])
    <> extractSubdomains "-a.com" ["x-a.com"].
Proof. by vm_compute. Qed.

(** C8 (amended): for every target domain that begins and ends with a word
    character (an ASCII letter, a digit or an underscore), on ASCII text,
    the extractor is idempotent: from its own output, each subdomain taken as
    one raw entry, it extracts that same output. *)
Theorem extractSubdomains_idempotent (domain : string) (nameValues : list string) :
  regexp.is_word_opt (first_byte domain) = true ->
  regexp.is_word_opt (last_byte domain) = true ->
  is_ascii_string domain = true ->
  Forall (fun nameValue => is_ascii_string nameValue = true) nameValues ->
  extractSubdomains domain (extractSubdomains domain nameValues)
    = extractSubdomains domain nameValues.
Proof.
  intros Hfirst Hlast _ _. unfold extractSubdomains. f_equal.
  apply set_eq. intros x. rewrite !elem_of_subdomainSet.
  assert (forall y, y ∈ foldl (add_nameValue domain) ∅ nameValues ->
            Split y "010" = [y] /\ regexp.FindAllString domain y = [y]
            /\ normalise y = y /\ accepted domain y = true) as Hfixed.
  { intros y (nv & _ & entry & Hentry & m & Hm & -> & Hacc)%elem_of_subdomainSet.
    apply list_elem_of_In, Split_parts_no_sep in Hentry.
    destruct (extracted_is_fixed domain entry m Hfirst Hlast Hentry Hm)
      as (H1 & H2 & H3).
    by repeat split. }
  split.
  - intros (y & Hy & entry & Hentry & m & Hm & -> & Hacc).
    apply list_elem_of_In, sorted_keys_elem_of in Hy.
    pose proof Hy as Hy'. apply elem_of_subdomainSet in Hy'.
    destruct (Hfixed y Hy) as (Hsplit & Hfind & Hnorm & _).
    rewrite Hsplit in Hentry. destruct Hentry as [<-|[]].
    rewrite Hfind in Hm. destruct Hm as [<-|[]].
    by rewrite Hnorm.
  - intros Hx. pose proof Hx as Hx'. apply elem_of_subdomainSet in Hx'.
    destruct (Hfixed x Hx') as (Hsplit & Hfind & Hnorm & Hacc).
    exists x. split; [by apply list_elem_of_In, sorted_keys_elem_of|].
    exists x. split; [rewrite Hsplit; by left|].
    exists x. split; [rewrite Hfind; by left|]. by rewrite Hnorm.
Qed.

Lemma extractSubdomains_idempotent_example :
  extractSubdomains "example.com" (extractSubdomains "example.com" raw_example)
    = extractSubdomains "example.com" raw_example.
Proof.
  apply (extractSubdomains_idempotent "example.com" raw_example).
  - reflexivity.
  - reflexivity.
  - reflexivity.
  - repeat constructor.
Defined.

(** * Part III: further properties *)

(** ** Prefixes, substrings and pieces *)

Lemma HasPrefix_spec (s p : string) :
  HasPrefix s p = true <-> exists q, s = p +:+ q.
Proof.
  revert s. induction p as [|x p IH]; intros s; simpl.
  - split; [by exists s | done].
  - destruct s as [|a s].
    + split; [done | by intros [q ?]].
    + rewrite andb_true_iff, Ascii.eqb_eq, IH. split.
      * intros [-> [q ->]]. by exists q.
      * intros [q Hq]. rewrite append_cons in Hq. injection Hq as -> ->. eauto.
Qed.

Lemma Contains_spec (s sub : string) :
  Contains s sub = true <-> exists p q, s = p +:+ sub +:+ q.
Proof.
  induction s as [|a s IH]; simpl.
  - rewrite orb_false_r, HasPrefix_spec. split.
    + intros [q Hq]. by exists "", q.
    + intros (p & q & Hpq). destruct p; [by exists q|done].
  - rewrite orb_true_iff, HasPrefix_spec, IH. split.
    + intros [[q Hq]|(p & q & ->)].
      * by exists "", q.
      * by exists (String a p), q.
    + intros ([|b p] & q & Hpq).
      * left. by exists q.
      * rewrite append_cons in Hpq. injection Hpq as -> ->. right. by exists p, q.
Qed.

Lemma Contains_length (s sub : string) :
  Contains s sub = true -> String.length sub <= String.length s.
Proof.
  intros (p & q & ->)%Contains_spec. rewrite !length_append. lia.
Qed.

Lemma append_inj_length (a a' b b' : string) :
  String.length a = String.length a' ->
  a +:+ b = a' +:+ b' -> a = a' /\ b = b'.
Proof.
  revert a'. induction a as [|x a IH]; intros [|x' a'] Hlen; simpl in Hlen; try done.
  rewrite !append_cons. intros [= -> H]. destruct (IH a') as [-> ->]; [lia|done|done].
Qed.

Lemma ToLower_drop (n : nat) (s : string) : ToLower (drop n s) = drop n (ToLower s).
Proof. revert s. induction n as [|n IH]; intros [|a s]; simpl; try done. Qed.

Lemma drop_append (p q : string) : drop (String.length p) (p +:+ q) = q.
Proof. induction p as [|x p IH]; [by destruct q|]. rewrite append_cons. apply IH. Qed.

Lemma TrimPrefix_cases (s p : string) :
  TrimPrefix s p = s /\ HasPrefix s p = false \/ s = p +:+ TrimPrefix s p.
Proof.
  unfold TrimPrefix. destruct (HasPrefix s p) eqn:Hp; [right|by left].
  apply HasPrefix_spec in Hp as [q ->]. by rewrite drop_append.
Qed.

Lemma ToLower_TrimPrefix_lower (s p : string) :
  ToLower s = s -> ToLower (TrimPrefix s p) = TrimPrefix s p.
Proof.
  intros Hs. unfold TrimPrefix. destruct (HasPrefix s p); [|done].
  by rewrite ToLower_drop, Hs.
Qed.

Lemma Split_nonempty (s : string) (sep : ascii) : Split s sep <> [].
Proof.
  destruct s as [|a s]; simpl; [done|].
  destruct (Ascii.eqb a sep); [done|]. by destruct (Split s sep).
Qed.

(** Splitting a text joined by the separator: the pieces of the two parts. *)
Lemma Split_append_sep (a b : string) (sep : ascii) :
  Split (a +:+ String sep b) sep = Split a sep ++ Split b sep.
Proof.
  induction a as [|c a IH].
  - rewrite append_nil_l. simpl. by rewrite Ascii.eqb_refl.
  - rewrite append_cons. simpl. rewrite IH.
    destruct (Ascii.eqb c sep); [done|].
    pose proof (Split_nonempty a sep).
    by destruct (Split a sep).
Qed.

(** ** Trimming: what is removed and what is left *)

Lemma rev_app_acc (s acc : string) :
  String.rev_app s acc = String.rev_app s "" +:+ acc.
Proof.
  revert acc. induction s as [|a s IH]; intros acc; simpl; [done|].
  rewrite (IH (String a acc)), (IH (String a "")).
  by rewrite append_assoc.
Qed.

Lemma rev_append (s t : string) :
  String.rev (s +:+ t) = String.rev t +:+ String.rev s.
Proof. unfold String.rev. by rewrite rev_app_append, rev_app_acc. Qed.

Lemma rev_length (s : string) : String.length (String.rev s) = String.length s.
Proof.
  induction s as [|a s IH]; [done|]. unfold String.rev in *. simpl.
  rewrite rev_app_acc, length_append, IH. simpl. lia.
Qed.

Section TrimFront.

Variable two : ascii -> ascii -> bool.
Variable three : ascii -> ascii -> ascii -> bool.

Lemma trim_front_fixed (s : string) :
  trimmed_front two three s -> trim_front two three s = s.
Proof.
  destruct s as [|c0 [|c1 [|c2 s3]]]; simpl; try done.
  - by intros [-> _].
  - by intros [-> [-> _]].
  - by intros [-> [-> ->]].
Qed.

(** The loop removes a prefix and stops on a string it leaves alone. *)
Lemma trim_front_spec (n : nat) :
  forall s, String.length s <= n ->
    trimmed_front two three (trim_front two three s) /\
    exists p, s = p +:+ trim_front two three s.
Proof.
  induction n as [|n IH]; intros s Hlen.
  - destruct s; [|simpl in Hlen; lia]. split; [done | by exists ""].
  - destruct s as [|c0 s1]; [split; [done | by exists ""]|].
    simpl in Hlen. cbn [trim_front].
    destruct (is_ascii_space c0) eqn:H0.
    { destruct (IH s1) as [Ht [p Hp]]; [lia|]. split; [done|].
      exists (String c0 p). by rewrite append_cons, <- Hp. }
    destruct s1 as [|c1 s2]; [split; [by simpl; rewrite H0 | by exists ""]|].
    simpl in Hlen. destruct (two c0 c1) eqn:H1.
    { destruct (IH s2) as [Ht [p Hp]]; [lia|]. split; [done|].
      exists (String c0 (String c1 p)). by rewrite !append_cons, <- Hp. }
    destruct s2 as [|c2 s3].
    { split; [by simpl; rewrite H0, H1 | by exists ""]. }
    simpl in Hlen. destruct (three c0 c1 c2) eqn:H2.
    { destruct (IH s3) as [Ht [p Hp]]; [lia|]. split; [done|].
      exists (String c0 (String c1 (String c2 p))). by rewrite !append_cons, <- Hp. }
    split; [by simpl; rewrite H0, H1, H2 | by exists ""].
Qed.

Lemma trim_front_trimmed (s : string) :
  trimmed_front two three (trim_front two three s).
Proof. by apply (trim_front_spec (String.length s)). Qed.

Lemma trim_front_suffix (s : string) : exists p, s = p +:+ trim_front two three s.
Proof. by apply (trim_front_spec (String.length s)). Qed.

Lemma trimmed_front_prefix (u v : string) :
  trimmed_front two three (u +:+ v) -> trimmed_front two three u.
Proof.
  destruct u as [|c0 [|c1 [|c2 u]]]; simpl; try done.
  - by intros [? _].
  - by intros [? [? _]].
Qed.

End TrimFront.

Lemma TrimLeftSpace_suffix (s : string) : exists p, s = p +:+ TrimLeftSpace s.
Proof. apply trim_front_suffix. Qed.

Lemma TrimRightSpace_prefix (s : string) : exists q, s = TrimRightSpace s +:+ q.
Proof.
  unfold TrimRightSpace.
  destruct (trim_front_suffix (fun c0 c1 => space2 c1 c0)
              (fun c0 c1 c2 => space3 c2 c1 c0) (String.rev s)) as [p Hp].
  exists (String.rev p).
  rewrite <- rev_append, <- Hp. by rewrite rev_involutive.
Qed.

Lemma TrimSpace_length (s : string) : String.length (TrimSpace s) <= String.length s.
Proof.
  unfold TrimSpace.
  destruct (TrimLeftSpace_suffix s) as [p Hp].
  destruct (TrimRightSpace_prefix (TrimLeftSpace s)) as [q Hq].
  rewrite Hp at 2. rewrite Hq at 2. rewrite !length_append. lia.
Qed.

(** Trimming twice is trimming once. *)
Lemma TrimSpace_idempotent (s : string) : TrimSpace (TrimSpace s) = TrimSpace s.
Proof.
  unfold TrimSpace.
  assert (TrimLeftSpace (TrimRightSpace (TrimLeftSpace s))
          = TrimRightSpace (TrimLeftSpace s)) as ->.
  { apply trim_front_fixed.
    destruct (TrimRightSpace_prefix (TrimLeftSpace s)) as [q Hq].
    apply (trimmed_front_prefix _ _ _ q). rewrite <- Hq.
    apply trim_front_trimmed. }
  unfold TrimRightSpace at 1. unfold TrimRightSpace at 1.
  rewrite rev_involutive. rewrite trim_front_fixed by apply trim_front_trimmed.
  done.
Qed.

Lemma TrimSpace_first_byte (s : string) (a : ascii) :
  first_byte s = Some a -> is_word a = true ->
  TrimSpace s = "" \/ first_byte (TrimSpace s) = Some a.
Proof.
  intros Hs Ha. destruct s as [|c s]; [done|]. simpl in Hs. injection Hs as ->.
  unfold TrimSpace, TrimLeftSpace.
  rewrite trim_front_stop;
    [ | by apply is_word_not_space
      | intros; by apply ascii_not_space2_l, is_word_ascii
      | intros; by apply ascii_not_space3_l, is_word_ascii ].
  destruct (TrimRightSpace_prefix (String a s)) as [q Hq].
  destruct (TrimRightSpace (String a s)) as [|b t]; [by left|].
  right. rewrite append_cons in Hq. by injection Hq as -> _.
Qed.

(** ** The extractor: its output as a whole *)

Lemma elem_of_extractSubdomains (domain : string) (nameValues : list string) (x : string) :
  x ∈ extractSubdomains domain nameValues <->
  exists line m, In line (flat_map (fun nameValue => Split nameValue "010") nameValues) /\
                 In m (FindAllString domain line) /\
                 x = normalise m /\ accepted domain x = true.
Proof.
  unfold extractSubdomains. rewrite sorted_keys_elem_of, elem_of_subdomainSet. split.
  - intros (nv & Hnv & line & Hline & m & Hm).
    exists line, m. split; [|done]. apply in_flat_map. eauto.
  - intros (line & m & (nv & Hnv & Hline)%in_flat_map & Hm). eauto 8.
Qed.

Lemma sorted_keys_ext (X Y : gset string) :
  (forall x, x ∈ X <-> x ∈ Y) -> sorted_keys X = sorted_keys Y.
Proof. intros H. f_equal. by apply set_eq. Qed.

Lemma extractSubdomains_ext (domain : string) (raw1 raw2 : list string) :
  (forall x, x ∈ extractSubdomains domain raw1 <-> x ∈ extractSubdomains domain raw2) ->
  extractSubdomains domain raw1 = extractSubdomains domain raw2.
Proof.
  intros H. unfold extractSubdomains. apply sorted_keys_ext. intros x.
  specialize (H x). unfold extractSubdomains in H.
  by rewrite !sorted_keys_elem_of in H.
Qed.

Lemma extractSubdomains_nil_intro (domain : string) (raw : list string) :
  (forall x, ~ x ∈ extractSubdomains domain raw) -> extractSubdomains domain raw = [].
Proof.
  intros H. unfold extractSubdomains in *.
  assert (foldl (add_nameValue domain) ∅ raw = ∅) as ->.
  { apply set_eq. intros x. split; [|set_solver].
    intros Hx. destruct (H x). by apply sorted_keys_elem_of. }
  reflexivity.
Qed.

(** A match, once normalised, is in lower case and on one line. *)
Lemma normalise_lower (m : string) : ToLower (normalise m) = normalise m.
Proof. unfold normalise. apply ToLower_TrimPrefix_lower, ToLower_idem. Qed.

Lemma string_forall_drop (p : ascii -> bool) (n : nat) :
  forall s, string_forall p s = true -> string_forall p (drop n s) = true.
Proof.
  induction n as [|n IH]; intros [|a s]; simpl; try done.
  intros [_ Hs]%andb_true_iff. by apply IH.
Qed.

Lemma string_forall_append_r (p : ascii -> bool) (s t : string) :
  string_forall p (s +:+ t) = true -> string_forall p t = true.
Proof. rewrite string_forall_append. by intros [_ ?]%andb_true_iff. Qed.

Lemma string_forall_append_l (p : ascii -> bool) (s t : string) :
  string_forall p (s +:+ t) = true -> string_forall p s = true.
Proof. rewrite string_forall_append. by intros [? _]%andb_true_iff. Qed.

Lemma string_forall_TrimSpace (p : ascii -> bool) (s : string) :
  string_forall p s = true -> string_forall p (TrimSpace s) = true.
Proof.
  intros Hs. unfold TrimSpace.
  destruct (TrimLeftSpace_suffix s) as [q Hq].
  destruct (TrimRightSpace_prefix (TrimLeftSpace s)) as [r Hr].
  rewrite Hq in Hs. apply string_forall_append_r in Hs.
  rewrite Hr in Hs. by apply string_forall_append_l in Hs.
Qed.

Lemma normalise_one_line (m : string) :
  string_forall (fun a => negb (Ascii.eqb a "010")) m = true ->
  string_forall (fun a => negb (Ascii.eqb a "010")) (normalise m) = true.
Proof.
  intros Hm. unfold normalise, TrimPrefix.
  assert (string_forall (fun a => negb (Ascii.eqb a "010")) (ToLower (TrimSpace m)) = true)
    as Hl by (by rewrite ToLower_no_line_feed; apply string_forall_TrimSpace).
  destruct (HasPrefix _ _); [by apply string_forall_drop | done].
Qed.

Lemma lines_one_line (raw : list string) (line : string) :
  In line (flat_map (fun nameValue => Split nameValue "010") raw) ->
  string_forall (fun a => negb (Ascii.eqb a "010")) line = true.
Proof.
  intros (nv & _ & Hline)%in_flat_map.
  by apply list_elem_of_In, Split_parts_no_sep in Hline.
Qed.

(** ** Matches and their normal form *)

Lemma fold_equal_ToLower (lit : string) :
  forall s, fold_equal lit s = true -> ToLower s = ToLower lit.
Proof.
  induction lit as [|x lit IH]; intros [|a s]; simpl; try done.
  intros [Ha Hs]%andb_true_iff. unfold fold_eq in Ha.
  apply Ascii.eqb_eq in Ha. by rewrite Ha, (IH s).
Qed.

Lemma fold_equal_refl (lit : string) : fold_equal lit lit = true.
Proof.
  induction lit as [|x lit IH]; [done|]. simpl. rewrite IH.
  unfold fold_eq. by rewrite Ascii.eqb_refl.
Qed.

Lemma Split_parts_forall (p : ascii -> bool) (sep : ascii) (s part : string) :
  string_forall p s = true -> In part (Split s sep) -> string_forall p part = true.
Proof.
  revert part. induction s as [|c s IH]; intros part Hs Hpart.
  - simpl in Hpart. by destruct Hpart as [<-|[]].
  - simpl in Hs. apply andb_true_iff in Hs as [Hc Hs]. simpl in Hpart.
    destruct (Ascii.eqb c sep).
    + destruct Hpart as [<-|Hpart]; [done|]. by apply IH.
    + destruct (Split s sep) as [|q qs] eqn:Hsplit; [by destruct Hpart as [<-|[]]; simpl; rewrite Hc|].
      destruct Hpart as [<-|Hpart].
      * simpl. rewrite Hc. apply IH; [done|by left].
      * apply IH; [done|by right].
Qed.

Lemma string_forall_normalise (p : ascii -> bool) (m : string) :
  (forall a, p (lower_byte a) = p a) ->
  string_forall p m = true -> string_forall p (normalise m) = true.
Proof.
  intros Hp Hm. unfold normalise, TrimPrefix.
  assert (string_forall p (ToLower (TrimSpace m)) = true) as Hl.
  { rewrite string_forall_ToLower by done. by apply string_forall_TrimSpace. }
  destruct (HasPrefix _ _); [by apply string_forall_drop | done].
Qed.

Lemma is_ascii_lower (a : ascii) : is_ascii (lower_byte a) = is_ascii a.
Proof. by_cases_on_byte a. Qed.

(** A match between word bytes is normalised by lowering its letters. *)
Lemma normalise_between_words (m : string) :
  is_word_opt (first_byte m) = true -> is_word_opt (last_byte m) = true ->
  normalise m = ToLower m.
Proof.
  intros Hf Hl. unfold normalise. rewrite TrimSpace_between_words by done.
  apply TrimPrefix_star_dot_word. rewrite first_byte_ToLower.
  destruct (first_byte m); [|done]. simpl in *. by rewrite is_word_lower.
Qed.

(** The normal form of a match that still contains the target is the match
    trimmed and in lower case: it did not begin with the wildcard label, and
    does not. *)
Lemma normalise_no_wildcard (domain L s : string) :
  labels_dot L -> fold_equal domain s = true ->
  Contains (normalise (L +:+ s)) domain = true ->
  normalise (L +:+ s) = ToLower (TrimSpace (L +:+ s)) /\
  HasPrefix (normalise (L +:+ s)) "*." = false.
Proof.
  intros HL Hs Hc.
  assert (L = "" \/ exists a, first_byte (L +:+ s) = Some a /\ is_word a = true) as Hm.
  { destruct HL as [|l L' Hl HL']; [by left|right].
    pose proof (is_label_first l Hl) as Hfl.
    destruct l as [|a l']; [done|]. exists a. by rewrite !append_cons. }
  revert Hc. unfold normalise.
  destruct (TrimPrefix_cases (ToLower (TrimSpace (L +:+ s))) "*.")
    as [[-> ?]|Hcut]; [done|].
  intros Hc. exfalso.
  set (x := TrimPrefix (ToLower (TrimSpace (L +:+ s))) "*.") in *.
  assert (first_byte (TrimSpace (L +:+ s)) = Some "*"%char) as Hstar.
  { pose proof (first_byte_ToLower (TrimSpace (L +:+ s))) as Hfb.
    rewrite Hcut in Hfb. cbn [first_byte String.app] in Hfb.
    destruct (first_byte (TrimSpace (L +:+ s))) as [a|]; [|done].
    simpl in Hfb. f_equal. injection Hfb as Hfb. clear -Hfb.
    revert Hfb. by_cases_on_byte a. }
  destruct Hm as [->|(a & Ha & Hw)].
  - apply Contains_length in Hc. rewrite append_nil_l in *.
    assert (String.length (ToLower (TrimSpace s)) = 2 + String.length x) as Hlen
      by (by rewrite Hcut).
    rewrite ToLower_length in Hlen.
    pose proof (TrimSpace_length s) as Hle.
    apply fold_equal_length in Hs. lia.
  - destruct (TrimSpace_first_byte _ a Ha Hw) as [He|Hfb].
    + by rewrite He in Hstar.
    + rewrite Hfb in Hstar. injection Hstar as ->. done.
Qed.

(** ** The extractor: what every result looks like *)

Lemma extracted_match (domain : string) (raw : list string) (x : string) :
  x ∈ extractSubdomains domain raw ->
  exists line L s,
    In line (flat_map (fun nameValue => Split nameValue "010") raw) /\
    labels_dot L /\ fold_equal domain s = true /\
    (forall p, string_forall p line = true -> string_forall p (L +:+ s) = true) /\
    x = normalise (L +:+ s) /\ accepted domain x = true.
Proof.
  intros (line & m & Hline & Hm & -> & Hacc)%elem_of_extractSubdomains.
  destruct (FindAllString_sound _ _ _ Hm) as (L & s & HL & Hs & -> & Hbytes).
  by exists line, L, s.
Qed.

Lemma lines_forall (p : ascii -> bool) (raw : list string) (line : string) :
  Forall (fun nameValue => string_forall p nameValue = true) raw ->
  In line (flat_map (fun nameValue => Split nameValue "010") raw) ->
  string_forall p line = true.
Proof.
  intros Hraw (nv & Hnv & Hline)%in_flat_map.
  rewrite Forall_forall in Hraw.
  eapply Split_parts_forall; [|done]. by apply Hraw, list_elem_of_In.
Qed.

(** X1: the slice [extractSubdomains] returns is in ascending order without
    repetition, and every name in it passes [isValidSubdomain], contains the
    target domain and is between the length of the target and 253 bytes
    long. *)
Theorem extractSubdomains_sorted_valid (domain : string) (nameValues : list string) :
  StronglySorted String.le (extractSubdomains domain nameValues) /\
  NoDup (extractSubdomains domain nameValues) /\
  forall x, x ∈ extractSubdomains domain nameValues ->
    isValidSubdomain x = true /\ Contains x domain = true /\
    1 <= String.length x /\
    String.length domain <= String.length x <= 253.
Proof.
  split; [apply sorted_keys_sorted|]. split; [apply sorted_keys_NoDup|].
  intros x (line & m & _ & _ & _ & Hacc)%elem_of_extractSubdomains.
  apply andb_true_iff in Hacc as [Hv Hc].
  pose proof (isValidSubdomain_length x Hv). pose proof (Contains_length _ _ Hc).
  repeat split; try done; lia.
Qed.

(** X2: on ASCII text every name [extractSubdomains] returns is in lower
    case, is ASCII, holds no line feed and does not begin with the wildcard
    label ["*."]; its labels, the parts between its dots, are all between 1
    and 63 bytes long. *)
Theorem extractSubdomains_names_normal (domain : string) (nameValues : list string)
    (x : string) :
  is_ascii_string domain = true ->
  Forall (fun nameValue => is_ascii_string nameValue = true) nameValues ->
  x ∈ extractSubdomains domain nameValues ->
  ToLower x = x /\
  is_ascii_string x = true /\
  string_forall (fun a => negb (Ascii.eqb a "010")) x = true /\
  HasPrefix x "*." = false /\
  Forall (fun part => 1 <= String.length part <= 63) (Split x ".").
Proof.
  intros _ Hraw (line & L & s & Hline & HL & Hs & Hbytes & -> & Hacc)%extracted_match.
  apply andb_true_iff in Hacc as [Hv Hc].
  pose proof (normalise_no_wildcard _ _ _ HL Hs Hc) as [_ Hw].
  repeat split.
  - apply normalise_lower.
  - apply string_forall_normalise; [apply is_ascii_lower|].
    by apply Hbytes, (lines_forall _ nameValues).
  - apply normalise_one_line, Hbytes, (lines_one_line nameValues), Hline.
  - done.
  - pose proof (isValidSubdomain_length _ Hv) as Hlen.
    rewrite (isValidSubdomain_in_range _ Hlen) in Hv.
    unfold TrimPrefix in Hv. rewrite Hw in Hv. by apply parts_ok_spec.
Qed.

Lemma extractSubdomains_names_normal_example :
  "baz.example.com" ∈ extractSubdomains "example.com" raw_example /\
  ToLower "baz.example.com" = "baz.example.com" /\
  HasPrefix "baz.example.com" "*." = false.
Proof.
  assert ("baz.example.com" ∈ extractSubdomains "example.com" raw_example) as H
    by (vm_compute; set_solver).
  split; [exact H|].
  destruct (extractSubdomains_names_normal "example.com" raw_example "baz.example.com")
    as (H1 & _ & _ & H2 & _); [reflexivity | | exact H | by split].
  repeat constructor.
Defined.

(** ** The extractor as a function of the lines it is given *)

(** X3: the names [extractSubdomains] returns from two lists of entries
    together are those it returns from the one list or from the other. *)
Theorem extractSubdomains_app (domain : string) (raw1 raw2 : list string) (x : string) :
  x ∈ extractSubdomains domain (raw1 ++ raw2) <->
  x ∈ extractSubdomains domain raw1 \/ x ∈ extractSubdomains domain raw2.
Proof.
  rewrite !elem_of_extractSubdomains, flat_map_app. split.
  - intros (line & m & [H|H]%in_app_or & Hm); [left|right]; eauto.
  - intros [(line & m & H & Hm)|(line & m & H & Hm)]; exists line, m;
      (split; [apply in_or_app; eauto | done]).
Qed.

(** X4: the result of [extractSubdomains] depends on the set of lines of the
    entries only: entries whose lines are the same, in any order, any number
    of times and however they are grouped into entries by line feeds, give
    the same slice. *)
Theorem extractSubdomains_lines (domain : string) (raw1 raw2 : list string) :
  (forall line,
     In line (flat_map (fun nameValue => Split nameValue "010") raw1) <->
     In line (flat_map (fun nameValue => Split nameValue "010") raw2)) ->
  extractSubdomains domain raw1 = extractSubdomains domain raw2.
Proof.
  intros H. apply extractSubdomains_ext. intros x.
  rewrite !elem_of_extractSubdomains.
  split; intros (line & m & Hline & Hm); exists line, m; (split; [by apply H | done]).
Qed.

Lemma extractSubdomains_lines_example :
  extractSubdomains "example.com"
    ["b.example.com" +:+ nl +:+ "a.example.com"; "b.example.com"]
  = extractSubdomains "example.com" ["a.example.com"; "b.example.com"].
Proof.
  apply extractSubdomains_lines. intros line. simpl. tauto.
Defined.

(** X5: one entry that holds two lines, with a line feed between them, gives
    what the two lines give as two entries. *)
Theorem extractSubdomains_bundle (domain a b : string) (raw : list string) :
  extractSubdomains domain ((a +:+ nl +:+ b) :: raw)
  = extractSubdomains domain (a :: b :: raw).
Proof.
  apply extractSubdomains_ext. intros x. rewrite !elem_of_extractSubdomains.
  cbn [flat_map]. unfold nl.
  change (a +:+ String "010" "" +:+ b) with (a +:+ String "010" ("" +:+ b)).
  rewrite append_nil_l, Split_append_sep, <- app_assoc. done.
Qed.

(** X6: on ASCII text, a target domain with an upper-case letter never
    gives a result: the names found are lowered before the test that they
    contain the target, which is used as it was given. *)
Theorem extractSubdomains_upper_case_target (domain : string) (nameValues : list string) :
  is_ascii_string domain = true ->
  Forall (fun nameValue => is_ascii_string nameValue = true) nameValues ->
  ToLower domain <> domain ->
  extractSubdomains domain nameValues = [].
Proof.
  intros _ _ Hd. apply extractSubdomains_nil_intro.
  intros x (line & m & _ & _ & -> & Hacc)%elem_of_extractSubdomains.
  apply andb_true_iff in Hacc as [_ Hc].
  apply Contains_spec in Hc as (p & q & Hx).
  pose proof (normalise_lower m) as Hl. rewrite Hx in Hl.
  rewrite !ToLower_append in Hl.
  apply append_inj_length in Hl as [_ Hl]; [|apply ToLower_length].
  apply append_inj_length in Hl as [Hl _]; [done|apply ToLower_length].
Qed.

Lemma extractSubdomains_upper_case_target_example :
  extractSubdomains "Example.com" ["www.Example.com"; "www.example.com"] = [].
Proof.
  apply extractSubdomains_upper_case_target; [reflexivity | repeat constructor | done].
Defined.

(** ** The extractor: true subdomains, and which names it finds *)

Lemma extracted_target_lower (domain : string) (raw : list string) (x : string) :
  x ∈ extractSubdomains domain raw -> ToLower domain = domain.
Proof.
  intros (line & m & _ & _ & -> & Hacc)%elem_of_extractSubdomains.
  apply andb_true_iff in Hacc as [_ Hc].
  apply Contains_spec in Hc as (p & q & Hx).
  pose proof (normalise_lower m) as Hl. rewrite Hx in Hl.
  rewrite !ToLower_append in Hl.
  apply append_inj_length in Hl as [_ Hl]; [|apply ToLower_length].
  by apply append_inj_length in Hl as [Hl _]; [|apply ToLower_length].
Qed.

(** The normal form of a match for a lower-case target between word bytes. *)
Lemma normalise_match (domain L s : string) :
  is_word_opt (first_byte domain) = true ->
  is_word_opt (last_byte domain) = true ->
  ToLower domain = domain ->
  labels_dot L -> fold_equal domain s = true ->
  normalise (L +:+ s) = ToLower L +:+ domain.
Proof.
  intros Hfirst Hlast Hlow HL Hs.
  assert (domain <> "") as Hd by (by destruct domain).
  pose proof (fold_equal_nonempty _ _ Hs Hd) as Hne.
  rewrite normalise_between_words.
  - by rewrite ToLower_append, (fold_equal_ToLower _ _ Hs), Hlow.
  - apply labels_dot_first; [done|]. by rewrite (fold_equal_first _ _ Hs).
  - rewrite last_byte_append by done. by rewrite (fold_equal_last _ _ Hs).
Qed.

Lemma labels_dot_end (L : string) :
  labels_dot L -> L = "" \/ exists p, L = p +:+ ".".
Proof.
  induction 1 as [|l L Hl HL IH]; [by left|right].
  destruct IH as [->|[p ->]].
  - by exists l.
  - exists (l +:+ "." +:+ p). by rewrite !append_assoc.
Qed.

Lemma is_label_bytes (l : string) :
  is_label l ->
  string_forall alnum_hyphen l = true /\ 1 <= String.length l <= 63.
Proof.
  intros [a Ha | a u b Ha Hu Hlen Hb].
  - simpl. rewrite (alnum_alnum_hyphen _ Ha). split; [done|lia].
  - cbn [string_forall String.length].
    rewrite string_forall_append, length_append, Hu, (alnum_alnum_hyphen _ Ha).
    simpl. rewrite (alnum_alnum_hyphen _ Hb). split; [done|lia].
Qed.

Lemma Split_labels (L t : string) :
  labels_dot L ->
  Forall (fun part => 1 <= String.length part <= 63) (Split t ".") ->
  Forall (fun part => 1 <= String.length part <= 63) (Split (L +:+ t) ".").
Proof.
  intros HL Ht. induction HL as [|l L Hl HL IH]; [done|].
  destruct (is_label_bytes l Hl) as [Hbytes Hlen].
  rewrite !append_assoc.
  change ("." +:+ (L +:+ t)) with (String "." (L +:+ t)).
  rewrite Split_append_sep, Split_no_sep.
  - by constructor.
  - eapply string_forall_impl; [|exact Hbytes].
    intros a Ha. apply alnum_hyphen_not_dot in Ha.
    rewrite Ascii.eqb_sym. by rewrite Ha.
Qed.

(** A name made of labels before a valid target is valid when it is not too
    long. *)
Lemma isValidSubdomain_labels (domain L : string) :
  is_word_opt (first_byte domain) = true ->
  isValidSubdomain domain = true ->
  labels_dot L ->
  String.length L + String.length domain <= 253 ->
  isValidSubdomain (L +:+ domain) = true.
Proof.
  intros Hfirst Hvalid HL Hlen.
  pose proof (isValidSubdomain_length _ Hvalid) as Hd.
  rewrite isValidSubdomain_in_range in Hvalid by done.
  rewrite TrimPrefix_star_dot_word in Hvalid by done.
  rewrite isValidSubdomain_in_range by (rewrite length_append; lia).
  rewrite TrimPrefix_star_dot_word by (by apply labels_dot_first).
  apply parts_ok_spec, Split_labels; [done|]. by apply parts_ok_spec.
Qed.

(** X7: for a target domain that begins and ends with a word character, on
    ASCII text, every name [extractSubdomains] returns is the target itself
    or the target with labels and dots in front: a run of labels, each
    followed by a dot, in lower case, and then the target. *)
Theorem extractSubdomains_true_subdomains (domain : string) (nameValues : list string)
    (x : string) :
  is_word_opt (first_byte domain) = true ->
  is_word_opt (last_byte domain) = true ->
  is_ascii_string domain = true ->
  Forall (fun nameValue => is_ascii_string nameValue = true) nameValues ->
  x ∈ extractSubdomains domain nameValues ->
  (exists L, labels_dot L /\ ToLower L = L /\ x = L +:+ domain) /\
  (x = domain \/ exists p, x = p +:+ "." +:+ domain).
Proof.
  intros Hfirst Hlast _ _ Hx.
  pose proof (extracted_target_lower _ _ _ Hx) as Hlow.
  apply extracted_match in Hx as (line & L & s & _ & HL & Hs & _ & -> & _).
  rewrite (normalise_match domain L s) by done.
  pose proof (labels_dot_lower L HL) as HL'.
  split.
  - exists (ToLower L). by rewrite ToLower_idem.
  - destruct (labels_dot_end _ HL') as [->|[p ->]]; [by left|right].
    exists p. by rewrite append_assoc.
Qed.

Lemma extractSubdomains_true_subdomains_example :
  "baz.example.com" ∈ extractSubdomains "example.com" raw_example /\
  ("baz.example.com" = "example.com" \/
   exists p, "baz.example.com" = p +:+ "." +:+ "example.com").
Proof.
  assert ("baz.example.com" ∈ extractSubdomains "example.com" raw_example) as H
    by (vm_compute; set_solver).
  split; [exact H|].
  apply (extractSubdomains_true_subdomains "example.com" raw_example "baz.example.com");
    [reflexivity | reflexivity | reflexivity | repeat constructor | exact H].
Defined.

(** X8: on ASCII text, for a valid target domain in lower case that begins
    and ends with a word character, a line that is a run of labels, each
    followed by a dot, and then the target, in any letter case and of at
    most 253 bytes, is found: the name is returned in lower case. *)
Theorem extractSubdomains_finds_subdomain (domain L s nameValue : string)
    (nameValues : list string) :
  is_word_opt (first_byte domain) = true ->
  is_word_opt (last_byte domain) = true ->
  ToLower domain = domain ->
  isValidSubdomain domain = true ->
  is_ascii_string domain = true ->
  Forall (fun nameValue => is_ascii_string nameValue = true) nameValues ->
  labels_dot L -> fold_equal domain s = true ->
  String.length L + String.length domain <= 253 ->
  In nameValue nameValues -> In (L +:+ s) (Split nameValue "010") ->
  ToLower L +:+ domain ∈ extractSubdomains domain nameValues.
Proof.
  intros Hfirst Hlast Hlow Hvalid _ _ HL Hs Hlen Hnv Hline.
  assert (domain <> "") as Hd by (by destruct domain).
  pose proof (fold_equal_nonempty _ _ Hs Hd) as Hne.
  apply elem_of_extractSubdomains. exists (L +:+ s), (L +:+ s).
  split; [apply in_flat_map; eauto|]. split; [|split].
  - rewrite FindAllString_whole; [by left|done|done| |].
    + apply labels_dot_first; [done|]. by rewrite (fold_equal_first _ _ Hs).
    + by rewrite (fold_equal_last _ _ Hs).
  - by rewrite (normalise_match domain L s).
  - unfold accepted. apply andb_true_iff. split.
    + apply isValidSubdomain_labels; [done|done|by apply labels_dot_lower|].
      by rewrite ToLower_length.
    + apply Contains_spec. exists (ToLower L), "". by rewrite append_nil_r.
Qed.

Lemma extractSubdomains_finds_subdomain_example :
  "api.dev.example.com" ∈
    extractSubdomains "example.com" ["x.org"; "API.Dev.Example.COM" +:+ nl +:+ "y.org"].
Proof.
  apply (extractSubdomains_finds_subdomain "example.com" "API.Dev." "Example.COM"
           ("API.Dev.Example.COM" +:+ nl +:+ "y.org"));
    try reflexivity.
  - repeat constructor.
  - apply (labels_cons "API" "Dev."); [apply (label_more "A" "P" "I"); [done|done|simpl; lia|done]|].
    apply (labels_cons "Dev" ""); [apply (label_more "D" "e" "v"); [done|done|simpl; lia|done]|constructor].
  - simpl. lia.
  - right. by left.
  - by left.
Defined.

(** ** The fetcher for any number of retries *)

Lemma schedule_S (url : string) (n : nat) :
  schedule url (S n)
  = schedule url n ++ backed_off (Z.of_nat n + 1) [] ++ [Get url].
Proof.
  unfold schedule. rewrite List.seq_S, flat_map_app. simpl. rewrite app_nil_r.
  f_equal. unfold backed_off. destruct n as [|n]; [done|].
  destruct (1 <? Z.of_nat (S n) + 1)%Z eqn:E; [done|].
  apply Z.ltb_ge in E. lia.
Qed.

Lemma requests_schedule (url : string) (n : nat) : requests (schedule url n) = n.
Proof.
  induction n as [|n IH]; [done|].
  rewrite schedule_S, !requests_app, IH.
  unfold backed_off. destruct (1 <? _)%Z; unfold requests; simpl; lia.
Qed.

Lemma sleeps_schedule (url : string) (n : nat) :
  sleeps (schedule url (S n)) = map (fun i => Z.of_nat i + 2)%Z (List.seq 0 n).
Proof.
  induction n as [|n IH]; [done|].
  rewrite schedule_S, sleeps_app, IH, List.seq_S, map_app. f_equal.
  unfold backed_off. destruct (1 <? _)%Z eqn:E; [|apply Z.ltb_ge in E; lia].
  simpl. f_equal. lia.
Qed.

Section FetcherCases.

Variable json_Unmarshal : string -> string + list CRTResponse.
Variable http_NewRequest : string -> option string.
Variable net : nat -> DoResult.

Local Abbreviation aresult := (attempt_result json_Unmarshal).
Local Abbreviation rloop := (retry_loop json_Unmarshal http_NewRequest net).

Local Abbreviation last_err := (last_failure json_Unmarshal net).

(** The loop when the URL parses: it stops at the first attempt that
    succeeds, and runs out of attempts when none does. *)
Lemma retry_loop_cases (domain : string) (left : nat) :
  forall (done : nat) (lastErr : option failure),
    http_NewRequest (crt_url domain) = None ->
    (forall j, j < done -> exists err, aresult (net j) = inl err) ->
    let out := rloop domain left (Z.of_nat done + 1) lastErr done
                 (schedule (crt_url domain) done) in
    (exists k results,
        done <= k < done + left /\
        (forall j, j < k -> exists err, aresult (net j) = inl err) /\
        aresult (net k) = inr results /\
        out = (inr (extractSubdomains domain (map NameValue results)),
               schedule (crt_url domain) (S k)))
    \/ ((forall j, j < done + left -> exists err, aresult (net j) = inl err) /\
        out = (inl (MaxRetriesExceeded (last_err lastErr done left)),
               schedule (crt_url domain) (done + left))).
Proof.
  induction left as [|left IH]; intros done lastErr Hreq Hfail; cbv zeta.
  - right. rewrite Nat.add_0_r. done.
  - destruct (aresult (net done)) as [err|results] eqn:Hres.
    + rewrite (retry_loop_fail _ _ _ _ _ _ _ _ _ err) by done.
      replace (backed_off (Z.of_nat done + 1) (schedule (crt_url domain) done)
               ++ [Get (crt_url domain)])
        with (schedule (crt_url domain) (S done)).
      2:{ rewrite schedule_S. unfold backed_off.
          destruct (1 <? _)%Z; by rewrite <- ?app_assoc, ?app_nil_r. }
      replace (Z.of_nat done + 1 + 1)%Z with (Z.of_nat (S done) + 1)%Z by lia.
      assert (forall j, j < S done -> exists e, aresult (net j) = inl e) as Hfail'.
      { intros j Hj. destruct (decide (j = done)) as [->|]; [eauto|].
        apply Hfail. lia. }
      destruct (IH (S done) (Some err) Hreq Hfail')
        as [(k & results & Hk & Hbefore & Hok & ->)|[Hall ->]].
      * left. exists k, results. repeat split; try done; lia.
      * right. replace (S done + left) with (done + S left) in * by lia.
        split; [done|]. do 2 f_equal.
        destruct left as [|left]; simpl.
        -- by rewrite Nat.add_0_r, Hres.
        -- destruct (Hall (done + S left)) as [e He]; [lia|].
           replace (S (done + left)) with (done + S left) by lia.
           by rewrite He.
    + left. exists done, results.
      rewrite (retry_loop_ok _ _ _ _ _ _ _ _ _ results) by done.
      repeat split; try done; try lia.
      f_equal. rewrite schedule_S. unfold backed_off.
      destruct (1 <? _)%Z; by rewrite <- ?app_assoc, ?app_nil_r.
Qed.

End FetcherCases.

Section FetcherOutcome.

Variable json_Unmarshal : string -> string + list CRTResponse.
Variable http_NewRequest : string -> option string.
Variable net : nat -> DoResult.

Local Abbreviation aresult := (attempt_result json_Unmarshal).
Local Abbreviation query := (queryAPI json_Unmarshal http_NewRequest net).

(** The four ways a call of [queryAPI] goes. *)
Lemma queryAPI_outcome (s : SubHunter) (domain : string) :
  let n := Z.to_nat (maxRetries s) in
  let url := crt_url domain in
  (n = 0 /\ query s domain = (inl (MaxRetriesExceeded None), []))
  \/ (0 < n /\ exists msg, http_NewRequest url = Some msg /\
                           query s domain = (inl (RequestError msg), []))
  \/ (http_NewRequest url = None /\
      exists k results,
        k < n /\ (forall j, j < k -> exists err, aresult (net j) = inl err) /\
        aresult (net k) = inr results /\
        query s domain
          = (inr (extractSubdomains domain (map NameValue results)), schedule url (S k)))
  \/ (0 < n /\ http_NewRequest url = None /\
      (forall j, j < n -> exists err, aresult (net j) = inl err) /\
      exists err, aresult (net (n - 1)) = inl err /\
                  query s domain = (inl (MaxRetriesExceeded (Some err)), schedule url n)).
Proof.
  cbv zeta. unfold queryAPI.
  destruct (Z.to_nat (maxRetries s)) as [|n] eqn:Hn; [by left|]. right.
  destruct (http_NewRequest (crt_url domain)) as [msg|] eqn:Hreq.
  - left. split; [lia|]. exists msg. split; [done|].
    by rewrite (retry_loop_no_request _ _ _ _ _ _ _ _ _ msg).
  - right.
    destruct (retry_loop_cases json_Unmarshal http_NewRequest net domain (S n) 0 None Hreq)
      as [(k & results & Hk & Hbefore & Hok & Hout)|[Hall Hout]].
    + intros j Hj. lia.
    + left. split; [done|]. exists k, results.
      split; [lia|]. split; [done|]. split; [done|]. exact Hout.
    + right. split; [lia|]. split; [done|]. split; [done|].
      destruct (Hall n) as [err Herr]; [lia|]. exists err.
      replace (S n - 1) with n by lia. split; [done|].
      etrans; [exact Hout|]. cbn [last_failure Nat.add]. by rewrite Herr.
Qed.

End FetcherOutcome.

(** X9: what a call of [queryAPI] does, for any number of retries. With
    [maxRetries] below 1 nothing is sent and the error wraps no failure; a
    URL that does not parse is reported at once, with nothing sent and no
    sleep; otherwise the call ends with the first attempt that succeeds,
    returning what is extracted from its records, or, when all [maxRetries]
    attempts fail, with the error that wraps the failure of the last one.
    In both cases the requests and sleeps are those of the schedule. *)
Theorem queryAPI_cases
    (json_Unmarshal : string -> string + list CRTResponse)
    (http_NewRequest : string -> option string) (net : nat -> DoResult)
    (s : SubHunter) (domain : string) :
  ((maxRetries s < 1)%Z /\
   queryAPI json_Unmarshal http_NewRequest net s domain
     = (inl (MaxRetriesExceeded None), []))
  \/ ((1 <= maxRetries s)%Z /\
      exists msg, http_NewRequest (crt_url domain) = Some msg /\
        queryAPI json_Unmarshal http_NewRequest net s domain
          = (inl (RequestError msg), []))
  \/ (http_NewRequest (crt_url domain) = None /\
      exists k results,
        (Z.of_nat k < maxRetries s)%Z /\
        (forall j, j < k -> exists err, attempt_result json_Unmarshal (net j) = inl err) /\
        succeeds json_Unmarshal (net k) results /\
        queryAPI json_Unmarshal http_NewRequest net s domain
          = (inr (extractSubdomains domain (map NameValue results)),
             schedule (crt_url domain) (S k)))
  \/ ((1 <= maxRetries s)%Z /\ http_NewRequest (crt_url domain) = None /\
      (forall j, (Z.of_nat j < maxRetries s)%Z ->
                 exists err, attempt_result json_Unmarshal (net j) = inl err) /\
      exists err,
        attempt_result json_Unmarshal (net (Z.to_nat (maxRetries s) - 1)) = inl err /\
        queryAPI json_Unmarshal http_NewRequest net s domain
          = (inl (MaxRetriesExceeded (Some err)),
             schedule (crt_url domain) (Z.to_nat (maxRetries s)))).
Proof.
  destruct (queryAPI_outcome json_Unmarshal http_NewRequest net s domain)
    as [[Hn Hq]|[[Hn (msg & Hreq & Hq)]|[[Hreq (k & results & Hk & Hbefore & Hok & Hq)]
        |(Hn & Hreq & Hall & err & Herr & Hq)]]].
  - left. split; [lia|done].
  - right; left. split; [lia|]. by exists msg.
  - right; right; left. split; [done|]. exists k, results.
    repeat split; try done; [lia|]. by apply attempt_result_succeeds.
  - right; right; right. repeat split; try done; [lia| |by exists err].
    intros j Hj. apply Hall. lia.
Qed.

(** X10: the back-off of [queryAPI] in general. Whatever the service
    answers, the requests of a call all go to the URL of the domain, there
    are at most [maxRetries] of them, nothing is slept before the first one
    or after the last one, and the sleep before the request number [k], from
    the second on, lasts [k] seconds. *)
Theorem queryAPI_schedule
    (json_Unmarshal : string -> string + list CRTResponse)
    (http_NewRequest : string -> option string) (net : nat -> DoResult)
    (s : SubHunter) (domain : string) :
  exists n,
    (Z.of_nat n <= Z.max 0 (maxRetries s))%Z /\
    snd (queryAPI json_Unmarshal http_NewRequest net s domain)
      = schedule (crt_url domain) n /\
    requests (snd (queryAPI json_Unmarshal http_NewRequest net s domain)) = n /\
    sleeps (snd (queryAPI json_Unmarshal http_NewRequest net s domain))
      = map (fun k => Z.of_nat k + 2)%Z (List.seq 0 (n - 1)).
Proof.
  assert (forall n, sleeps (schedule (crt_url domain) n)
                    = map (fun k => Z.of_nat k + 2)%Z (List.seq 0 (n - 1))) as Hsleeps.
  { intros [|n]; [done|]. rewrite sleeps_schedule. by replace (S n - 1) with n by lia. }
  destruct (queryAPI_outcome json_Unmarshal http_NewRequest net s domain)
    as [[Hn ->]|[[Hn (msg & Hreq & ->)]|[[Hreq (k & results & Hk & Hbefore & Hok & ->)]
        |(Hn & Hreq & Hall & err & Herr & ->)]]]; cbn [snd].
  - exists 0. repeat split; lia.
  - exists 0. repeat split; lia.
  - exists (S k). rewrite requests_schedule, Hsleeps. repeat split; lia.
  - exists (Z.to_nat (maxRetries s)). rewrite requests_schedule, Hsleeps.
    repeat split; lia.
Qed.

(** ** The retrying fetcher and the fetcher of version 1.0.0 *)

Lemma schedule_one (url : string) (k : nat) : schedule url (S k) = [Get url] -> k = 0.
Proof.
  intros H. apply (f_equal requests) in H. rewrite requests_schedule in H.
  unfold requests in H. simpl in H. lia.
Qed.

(** X11: the fetcher of version 1.0.0 and the retrying fetcher that
    replaced it, on the same service, for a decoder that accepts no text that
    begins with [<] and at least one attempt allowed. The retrying fetcher
    returns results after one request exactly when the old one returns them,
    and they are the same; a URL that does not parse fails both in the same
    way; and a failure of the old fetcher is the failure the new one records
    for its first attempt, except that a body that looks like HTML is no
    longer handed to the decoder. *)
Theorem queryAPI_refines_v1
    (json_Unmarshal : string -> string + list CRTResponse)
    (http_NewRequest : string -> option string) (net : nat -> DoResult)
    (s : SubHunter) (domain : string) :
  (1 <= maxRetries s)%Z ->
  (forall body results,
     json_Unmarshal body = inr results -> HasPrefix (TrimSpace body) "<" = false) ->
  (forall subs,
     v1.queryAPI json_Unmarshal http_NewRequest net domain
       = (inr subs, [Get (crt_url domain)]) <->
     queryAPI json_Unmarshal http_NewRequest net s domain
       = (inr subs, [Get (crt_url domain)])) /\
  (forall msg,
     v1.queryAPI json_Unmarshal http_NewRequest net domain
       = (inl (v1.RequestError msg), []) <->
     queryAPI json_Unmarshal http_NewRequest net s domain
       = (inl (RequestError msg), [])) /\
  (forall err,
     fst (v1.queryAPI json_Unmarshal http_NewRequest net domain) = inl (v1.Failed err) ->
     attempt_result json_Unmarshal (net 0) = inl err \/
     (attempt_result json_Unmarshal (net 0) = inl HTMLInsteadOfJSON /\
      exists msg, err = JSONDecodeFailed msg)).
Proof.
  intros Hn Hdec.
  assert (http_NewRequest (crt_url domain) = None ->
          forall subs,
            v1.queryAPI json_Unmarshal http_NewRequest net domain
              = (inr subs, [Get (crt_url domain)]) <->
            exists results, attempt_result json_Unmarshal (net 0) = inr results /\
                            subs = extractSubdomains domain (map NameValue results)) as Hv1.
  { intros Hreq subs. unfold v1.queryAPI. rewrite Hreq. cbv zeta.
    destruct (net 0) as [msg|code [msg|body]]; cbn [attempt_result].
    - split; [done|]. by intros (? & ? & _).
    - destruct (negb (code =? StatusOK)%Z); (split; [done|]); by intros (? & ? & _).
    - destruct (negb (code =? StatusOK)%Z); [split; [done|]; by intros (? & ? & _)|].
      destruct (json_Unmarshal body) as [msg|results] eqn:Hj.
      + split; [done|].
        destruct (HasPrefix (TrimSpace body) "<"); by intros (? & ? & _).
      + rewrite (Hdec _ _ Hj). split.
        * intros [= <-]. by exists results.
        * by intros (? & [= <-] & ->). }
  assert (http_NewRequest (crt_url domain) = None ->
          forall err,
            fst (v1.queryAPI json_Unmarshal http_NewRequest net domain)
              = inl (v1.Failed err) ->
            attempt_result json_Unmarshal (net 0) = inl err \/
            (attempt_result json_Unmarshal (net 0) = inl HTMLInsteadOfJSON /\
             exists msg, err = JSONDecodeFailed msg)) as Hv1f.
  { intros Hreq err. unfold v1.queryAPI. rewrite Hreq. cbv zeta.
    destruct (net 0) as [msg|code [msg|body]]; cbn [attempt_result].
    - intros [= <-]. by left.
    - destruct (negb (code =? StatusOK)%Z); intros [= <-]; by left.
    - destruct (negb (code =? StatusOK)%Z); [intros [= <-]; by left|].
      destruct (json_Unmarshal body) as [msg|results0] eqn:Hj; [|done].
      intros [= <-].
      destruct (HasPrefix (TrimSpace body) "<"); [right; eauto | by left]. }
  destruct (queryAPI_outcome json_Unmarshal http_NewRequest net s domain)
    as [[Hz _]|[[_ (msg & Hreq & Hq)]|[[Hreq (k & results & Hk & Hbefore & Hok & Hq)]
        |(_ & Hreq & Hall & err & Herr & Hq)]]]; [lia| | |].
  - (* the URL does not parse *)
    rewrite Hq. unfold v1.queryAPI. rewrite Hreq. repeat split; try done.
    + by intros [= ->].
    + by intros [= ->].
  - (* an attempt succeeds *)
    rewrite Hq. split; [|split].
    + intros subs. rewrite (Hv1 Hreq). split.
      * intros (results0 & Hok0 & ->).
        destruct k as [|k]; [by rewrite Hok0 in Hok; injection Hok as ->|].
        destruct (Hbefore 0) as [e He]; [lia|]. by rewrite He in Hok0.
      * intros Heq. pose proof (f_equal snd Heq) as Hs. cbn [snd] in Hs.
        apply schedule_one in Hs as ->.
        apply (f_equal fst) in Heq. cbn [fst] in Heq. injection Heq as <-.
        by exists results.
    + intros msg. unfold v1.queryAPI. rewrite Hreq. cbv zeta.
      split; [|done].
      destruct (net 0) as [?|code [?|body]]; try done;
        destruct (negb (code =? StatusOK)%Z); try done.
      by destruct (json_Unmarshal body).
    + by apply Hv1f.
  - (* every attempt fails *)
    rewrite Hq. split; [|split].
    + intros subs. rewrite (Hv1 Hreq). split; [|done].
      intros (results0 & Hok0 & _).
      destruct (Hall 0) as [e He]; [lia|]. by rewrite He in Hok0.
    + intros msg. unfold v1.queryAPI. rewrite Hreq. cbv zeta.
      split; [|done].
      destruct (net 0) as [?|code [?|body]]; try done;
        destruct (negb (code =? StatusOK)%Z); try done.
      by destruct (json_Unmarshal body).
    + by apply Hv1f.
Qed.


(** The decoder of the examples accepts the texts of its table only. *)
Lemma decode_table_inr (table : list (string * list CRTResponse)) (body : string)
    (results : list CRTResponse) :
  decode_table table body = inr results -> In (body, results) table.
Proof.
  unfold decode_table.
  destruct (List.find _ table) as [[key value]|] eqn:Hfind; [|done].
  apply find_some in Hfind as [Hin Heq]. cbn [fst] in Heq.
  apply String.eqb_eq in Heq as ->. cbn [snd]. by intros [= <-].
Qed.

Lemma queryAPI_refines_v1_example :
  v1.queryAPI decode_batch url_parses (nets_batch 0) "a.com"
    = (inr ["w.x.a.com"; "x.a.com"], [Get (crt_url "a.com")]) /\
  queryAPI decode_batch url_parses (nets_batch 0) (NewSubHunter 60 2 false) "a.com"
    = (inr ["w.x.a.com"; "x.a.com"], [Get (crt_url "a.com")]).
Proof.
  assert (v1.queryAPI decode_batch url_parses (nets_batch 0) "a.com"
          = (inr ["w.x.a.com"; "x.a.com"], [Get (crt_url "a.com")])) as H
    by (by vm_compute).
  split; [exact H|].
  destruct (queryAPI_refines_v1 decode_batch url_parses (nets_batch 0)
              (NewSubHunter 60 2 false) "a.com") as [Hsame _];
    [by vm_compute | | by apply Hsame].
  intros body results Hin%decode_table_inr.
  destruct Hin as [[= <- _]|[[= <- _]|[]]]; by vm_compute.
Defined.

(** ** Lower case and trimming commute *)

Lemma is_ascii_space_lower (a : ascii) : is_ascii_space (lower_byte a) = is_ascii_space a.
Proof. by_cases_on_byte a. Qed.

Lemma space2_lower (a b : ascii) : space2 (lower_byte a) (lower_byte b) = space2 a b.
Proof. by_cases_on_byte a; by_cases_on_byte b. Qed.

Lemma space3_lower (a b c : ascii) :
  space3 (lower_byte a) (lower_byte b) (lower_byte c) = space3 a b c.
Proof. by_cases_on_byte a; by_cases_on_byte b; by_cases_on_byte c. Qed.

Lemma trim_front_ToLower (two : ascii -> ascii -> bool)
    (three : ascii -> ascii -> ascii -> bool) :
  (forall a b, two (lower_byte a) (lower_byte b) = two a b) ->
  (forall a b c, three (lower_byte a) (lower_byte b) (lower_byte c) = three a b c) ->
  forall n s, String.length s <= n ->
    trim_front two three (ToLower s) = ToLower (trim_front two three s).
Proof.
  intros Htwo Hthree. induction n as [|n IH]; intros s Hlen.
  - by destruct s; [|simpl in Hlen; lia].
  - destruct s as [|c0 s1]; [done|]. simpl in Hlen.
    cbn [ToLower trim_front]. rewrite is_ascii_space_lower.
    destruct (is_ascii_space c0); [apply IH; lia|].
    destruct s1 as [|c1 s2]; [done|]. simpl in Hlen.
    cbn [ToLower]. rewrite Htwo.
    destruct (two c0 c1); [apply IH; lia|].
    destruct s2 as [|c2 s3]; [done|]. simpl in Hlen.
    cbn [ToLower]. rewrite Hthree.
    destruct (three c0 c1 c2); [apply IH; lia|]. done.
Qed.

Lemma ToLower_rev (s : string) : ToLower (String.rev s) = String.rev (ToLower s).
Proof.
  induction s as [|a s IH]; [done|].
  change (String a s) with (String a "" +:+ s).
  rewrite ToLower_append, !rev_append, ToLower_append, IH. done.
Qed.

Lemma TrimSpace_ToLower (s : string) : TrimSpace (ToLower s) = ToLower (TrimSpace s).
Proof.
  unfold TrimSpace, TrimRightSpace, TrimLeftSpace.
  rewrite (trim_front_ToLower space2 space3 space2_lower space3_lower (String.length s))
    by done.
  rewrite <- ToLower_rev.
  rewrite (trim_front_ToLower _ _ (fun a b => space2_lower b a)
             (fun a b c => space3_lower c b a) _ _ (Nat.le_refl _)).
  by rewrite ToLower_rev.
Qed.

(** The normal form [processDomain] gives a domain is its own normal form. *)
Lemma normal_domain_fixed (domain : string) :
  ToLower (TrimSpace (ToLower (TrimSpace domain))) = ToLower (TrimSpace domain).
Proof. by rewrite TrimSpace_ToLower, TrimSpace_idempotent, ToLower_idem. Qed.

(** ** The domain processor *)



(** X12: [processDomain] reads the domain it is given up to letter case and
    surrounding white space (ASCII text): given the domain already trimmed
    and in lower case, it returns the same names and the same counter. *)
Theorem processDomain_normal_form
    (json_Unmarshal : string -> string + list CRTResponse)
    (http_NewRequest : string -> option string) (net : nat -> DoResult)
    (s : SubHunter) (domain : string) :
  is_ascii_string domain = true ->
  processDomain json_Unmarshal http_NewRequest net s (ToLower (TrimSpace domain))
  = processDomain json_Unmarshal http_NewRequest net s domain.
Proof. intros _. unfold processDomain. by rewrite normal_domain_fixed. Qed.

Lemma processDomain_normal_form_example :
  processDomain decode_batch url_parses (nets_batch 0) (NewSubHunter 60 2 false) "a.com"
  = processDomain decode_batch url_parses (nets_batch 0) (NewSubHunter 60 2 false)
      "  A.Com ".
Proof.
  exact (processDomain_normal_form decode_batch url_parses (nets_batch 0)
           (NewSubHunter 60 2 false) "  A.Com " eq_refl).
Defined.



(** ** The concurrent branch never gets stuck *)

Lemma rank_insert (l : list task) (i : nat) (t t' : task) :
  l !! i = Some t ->
  list_sum (map stage (<[i := t']> l)) + stage t = list_sum (map stage l) + stage t'.
Proof.
  revert i. induction l as [|u l IH]; intros [|i] Hi; try done.
  - injection Hi as ->.
    change (<[0 := t']> (t :: l)) with (t' :: l). unfold list_sum in *; cbn [map fold_right]. lia.
  - change (<[S i := t']> (u :: l)) with (u :: <[i := t']> l).
    unfold list_sum in *; cbn [map fold_right]. specialize (IH i Hi). lia.
Qed.

Lemma tasks_done_or_not (l : list task) :
  Forall (eq Finished) l \/ exists i t, l !! i = Some t /\ t <> Finished.
Proof.
  induction l as [|u l [IH|(i & t & Hi & Ht)]].
  - by left.
  - destruct u as [| |subs| |];
      [right; by exists 0, Waiting | right; by exists 0, Running
      | right; by exists 0, (Fetched subs) | right; by exists 0, Merged
      | left; by constructor].
  - right. by exists (S i), t.
Qed.

Lemma tasks_slot_or_not (l : list task) :
  Forall (fun t => holds_slot t = false) l \/
  exists i t, l !! i = Some t /\ holds_slot t = true.
Proof.
  induction l as [|u l [IH|(i & t & Hi & Ht)]].
  - by left.
  - destruct (holds_slot u) eqn:Hu; [right; by exists 0, u|].
    left. by constructor.
  - right. by exists (S i), t.
Qed.

Lemma filter_none (f : task -> bool) (l : list task) :
  Forall (fun t => f t = false) l -> List.filter f l = [].
Proof. induction 1 as [|t l Ht _ IH]; [done|]. simpl. by rewrite Ht. Qed.

Lemma filter_some (f : task -> bool) (l : list task) (i : nat) (t : task) :
  l !! i = Some t -> f t = true -> 0 < length (List.filter f l).
Proof.
  revert i. induction l as [|u l IH]; intros [|i] Hi Ht; try done.
  - injection Hi as ->. simpl. rewrite Ht. simpl. lia.
  - simpl. destruct (f u); simpl; [lia|]. by apply (IH i).
Qed.

Section BatchProgress.

Variable json_Unmarshal : string -> string + list CRTResponse.
Variable http_NewRequest : string -> option string.
Variable nets : nat -> nat -> DoResult.

Local Abbreviation one_step := (step json_Unmarshal http_NewRequest nets).
Local Abbreviation invariant := (pool_inv json_Unmarshal http_NewRequest nets).

(** With a slot to give, some goroutine can always take its next step. *)
Lemma step_exists (s0 : SubHunter) (domains : list string) (p : pool) :
  (0 < concurrency s0)%Z ->
  invariant s0 domains p ->
  ~ all_done p ->
  exists p', one_step (Z.to_nat (concurrency s0)) domains p p' /\ rank p' < rank p.
Proof.
  intros Hcap (Hlen & _ & _ & _ & Hsem & _) Hnot.
  destruct (tasks_slot_or_not (tasks p)) as [Hnone|(i & t & Hi & Ht)].
  - destruct (tasks_done_or_not (tasks p)) as [Hdone|(i & t & Hi & Ht)]; [done|].
    assert (t = Waiting) as ->.
    { rewrite Forall_forall in Hnone.
      specialize (Hnone t (list_elem_of_lookup_2 _ _ _ Hi)). by destruct t. }
    unfold count in Hsem. rewrite (filter_none _ _ Hnone) in Hsem. simpl in Hsem.
    eexists. split; [apply (step_acquire _ _ _ _ _ i); [done|lia]|].
    unfold rank. cbn [tasks].
    pose proof (rank_insert _ _ _ Running Hi). simpl in *. lia.
  - destruct t; try done.
    + destruct (lookup_lt_is_Some_2 domains i) as [domain Hd].
      { rewrite <- Hlen. by eapply lookup_lt_Some. }
      destruct (process json_Unmarshal http_NewRequest nets i (hunter p) domain)
        as [subs s'] eqn:Hp.
      eexists. split; [by eapply (step_fetch _ _ _ _ _ i domain subs s')|].
      unfold rank. cbn [tasks].
      pose proof (rank_insert _ _ _ (Fetched subs) Hi). simpl in *. lia.
    + eexists. split; [by apply (step_merge _ _ _ _ _ i subs)|].
      unfold rank. cbn [tasks].
      pose proof (rank_insert _ _ _ Merged Hi). simpl in *. lia.
    + pose proof (filter_some holds_slot _ _ _ Hi eq_refl) as Hpos.
      unfold count in Hsem. destruct (sem p) as [|n] eqn:Hn; [lia|].
      eexists. split; [by apply (step_release _ _ _ _ _ i n)|].
      unfold rank. cbn [tasks].
      pose proof (rank_insert _ _ _ Finished Hi). simpl in *. lia.
Qed.

Lemma completion_reachable (s0 : SubHunter) (domains : list string) :
  (0 < concurrency s0)%Z ->
  forall n p, rank p <= n -> invariant s0 domains p ->
    exists p', rtc (one_step (Z.to_nat (concurrency s0)) domains) p p' /\
               invariant s0 domains p' /\ all_done p'.
Proof.
  intros Hcap. induction n as [|n IH]; intros p Hrank Hinv.
  - destruct (tasks_done_or_not (tasks p)) as [Hdone|Hnot]; [by exists p|].
    destruct (step_exists s0 domains p Hcap Hinv) as (p' & _ & Hlt); [|lia].
    intros Hdone. destruct Hnot as (i & t & Hi & Ht).
    unfold all_done in Hdone. rewrite Forall_forall in Hdone.
    by specialize (Hdone t (list_elem_of_lookup_2 _ _ _ Hi)).
  - destruct (tasks_done_or_not (tasks p)) as [Hdone|Hnot]; [by exists p|].
    destruct (step_exists s0 domains p Hcap Hinv) as (p' & Hstep & Hlt).
    { intros Hdone. destruct Hnot as (i & t & Hi & Ht).
      unfold all_done in Hdone. rewrite Forall_forall in Hdone.
      by specialize (Hdone t (list_elem_of_lookup_2 _ _ _ Hi)). }
    destruct (IH p') as (p'' & Hrun & Hinv'' & Hdone''); [lia| |].
    { by eapply pool_inv_step. }
    exists p''. split; [by eapply rtc_l|done].
Qed.

End BatchProgress.

(** X14: with at least one worker, the concurrent branch of
    [processDomainsFromFile] cannot get stuck: from every state that the
    goroutines can reach, in whatever order they have run, they can run on
    until all of them are done, and then the semaphore is empty again. *)
Theorem concurrent_never_stuck
    (json_Unmarshal : string -> string + list CRTResponse)
    (http_NewRequest : string -> option string) (nets : nat -> nat -> DoResult)
    (s : SubHunter) (domains : list string) (p : pool) :
  (0 < concurrency s)%Z ->
  reachable json_Unmarshal http_NewRequest nets s domains p ->
  exists p',
    rtc (step json_Unmarshal http_NewRequest nets (Z.to_nat (concurrency s)) domains)
      p p' /\
    all_done p' /\ sem p' = 0.
Proof.
  intros Hcap Hreach.
  destruct (completion_reachable json_Unmarshal http_NewRequest nets s domains Hcap
              (rank p) p (Nat.le_refl _))
    as (p' & Hrun & Hinv & Hdone); [by apply reachable_inv|].
  exists p'. repeat split; try done.
  destruct Hinv as (_ & _ & _ & _ & Hsem & _). rewrite <- Hsem.
  unfold count. rewrite filter_none; [done|].
  unfold all_done in Hdone. eapply Forall_impl; [exact Hdone|]. by intros t <-.
Qed.

Lemma concurrent_never_stuck_example :
  exists p',
    rtc (step decode_batch url_parses nets_batch 2 five_domains) two_fetching p' /\
    all_done p' /\ sem p' = 0.
Proof.
  apply (concurrent_never_stuck decode_batch url_parses nets_batch
           (NewSubHunter 60 2 false) five_domains two_fetching); [simpl; lia|].
  unfold reachable. simpl.
  eapply rtc_l; [apply (step_acquire _ _ _ _ _ 0); [done | simpl; lia]|].
  eapply rtc_l; [apply (step_acquire _ _ _ _ _ 1); [done | simpl; lia]|].
  apply rtc_refl.
Defined.

(** ** The batch orchestrator: the domains it loads, when it returns, and
    what it returns *)

Lemma TrimSpace_ne (domain : string) :
  String.eqb (TrimSpace domain) "" = false -> TrimSpace domain <> "".
Proof. by intros H%String.eqb_neq. Qed.

Lemma elem_of_load_domains (lines : list string) (domain : string) :
  In domain (load_domains lines) <->
  domain <> "" /\ exists line, In line lines /\ domain = TrimSpace line.
Proof.
  unfold load_domains. rewrite filter_In, in_map_iff, negb_true_iff, String.eqb_neq.
  split.
  - intros [(line & <- & Hline) Hne]. eauto.
  - intros [Hne (line & Hline & ->)]. eauto.
Qed.



Section BatchResults.

Variable json_Unmarshal : string -> string + list CRTResponse.
Variable http_NewRequest : string -> option string.
Variable nets : nat -> nat -> DoResult.


(** The sequential branch always returns. *)
Lemma sequential_returns (s : SubHunter) (domains : list string) :
  exists res,
    let '(allSubdomains, s') :=
      seq_loop json_Unmarshal http_NewRequest nets 0 domains ∅ s in
    res = finish allSubdomains s'.
Proof.
  destruct (seq_loop json_Unmarshal http_NewRequest nets 0 domains ∅ s)
    as [all s'] eqn:Hloop.
  by exists (finish all s').
Qed.

End BatchResults.

(** X16: when a batch run returns. [processDomainsFromFile] on a file that
    can be read returns in every case but one: in concurrent mode, with
    two domains or more loaded and no worker ([concurrency] 0 or less), it
    never does (the goroutines all wait for a slot that no one can give,
    or the channel of negative size cannot be made). *)
Theorem processDomainsFromFile_returns_iff
    (json_Unmarshal : string -> string + list CRTResponse)
    (http_NewRequest : string -> option string) (nets : nat -> nat -> DoResult)
    (s : SubHunter) (lines : list string) (concurrent : bool) :
  (exists res,
     processDomainsFromFile json_Unmarshal http_NewRequest nets s (Some lines)
       concurrent res) <->
  ~ (concurrent = true /\ 2 <= length (load_domains lines) /\ (concurrency s <= 0)%Z).
Proof.
  unfold processDomainsFromFile. cbv zeta.
  destruct concurrent; cbn [andb].
  - destruct (Nat.ltb 1 (length (load_domains lines))) eqn:Hlen.
    + apply Nat.ltb_lt in Hlen. split.
      * intros [res Hres] (_ & _ & Hc).
        destruct (decide (concurrency s = 0%Z)) as [Hz|Hnz].
        -- eapply no_slot_no_return; [exact Hz| |exact Hres].
           intros Hnil. rewrite Hnil in Hlen. simpl in Hlen. lia.
        -- destruct Hres as [Hpos _]. lia.
      * intros Hnot.
        assert (0 < concurrency s)%Z as Hc by (apply Z.nle_gt; intros ?; apply Hnot; auto with lia).
        destruct (concurrent_run_exists json_Unmarshal http_NewRequest nets s
                    (load_domains lines) Hc) as (p & Hreach & Hdone).
        exists (finish (allSubdomains p) (hunter p)).
        split; [lia|]. by exists p.
    + apply Nat.ltb_ge in Hlen. split.
      * intros _ (_ & ? & _). lia.
      * intros _. apply sequential_returns.
  - split.
    + by intros _ (? & _).
    + intros _. apply sequential_returns.
Qed.



(** ** A saved result read back *)

Lemma rev_cons (a : ascii) (s : string) :
  String.rev (String a s) = String.rev s +:+ String a "".
Proof. change (String a s) with (String a "" +:+ s). by rewrite rev_append. Qed.

Lemma first_byte_rev (s : string) : first_byte (String.rev s) = last_byte s.
Proof.
  induction s as [|a s IH]; [done|]. rewrite rev_cons.
  destruct s as [|b s]; [done|].
  rewrite first_byte_append; [done|].
  rewrite rev_cons. by destruct (String.rev s).
Qed.

(** A trimmed string does not end with white space of one byte. *)
Lemma TrimSpace_fixed_last (s : string) (a : ascii) :
  TrimSpace s = s -> last_byte s = Some a -> is_ascii_space a = false.
Proof.
  intros Hfix Hlast. rewrite <- first_byte_rev in Hlast.
  unfold TrimSpace, TrimRightSpace in Hfix.
  apply (f_equal String.rev) in Hfix. rewrite rev_involutive in Hfix.
  pose proof (trim_front_trimmed (fun c0 c1 => space2 c1 c0)
                (fun c0 c1 c2 => space3 c2 c1 c0)
                (String.rev (TrimLeftSpace s))) as Htrim.
  rewrite Hfix in Htrim. destruct (String.rev s) as [|c0 r]; [done|].
  injection Hlast as ->. by destruct Htrim.
Qed.

Lemma dropCR_trimmed (s : string) : TrimSpace s = s -> dropCR s = s.
Proof.
  intros Hfix. unfold dropCR. destruct (last_byte s) as [c|] eqn:Hlast; [|done].
  destruct (Ascii.eqb c "013") eqn:Hc; [|done].
  apply Ascii.eqb_eq in Hc as ->.
  by pose proof (TrimSpace_fixed_last _ _ Hfix Hlast).
Qed.

Lemma Split_written (subs : list string) :
  Forall (fun sub => string_forall (fun a => negb (Ascii.eqb a "010")) sub = true) subs ->
  Split (written subs) "010" = subs ++ [""].
Proof.
  induction 1 as [|sub subs Hsub _ IH]; [done|].
  cbn [written fold_right]. unfold Fprintln, nl. rewrite append_assoc.
  change (String "010" "" +:+ fold_right (fun sub text => (sub +:+ String "010" "") +:+ text) "" subs)
    with (String "010" (written subs)).
  by rewrite Split_append_sep, Split_no_sep, IH.
Qed.

Lemma last_snoc_string (l : list string) (x d : string) : List.last (l ++ [x]) d = x.
Proof. apply last_last. Qed.

Lemma map_dropCR_trimmed (subs : list string) :
  Forall (fun sub => TrimSpace sub = sub) subs -> map dropCR subs = subs.
Proof.
  induction 1 as [|sub subs Hfix _ IH]; [done|].
  cbn [map]. by rewrite dropCR_trimmed, IH.
Qed.

Lemma trimmed_list_loads (subs : list string) :
  Forall (fun sub => sub <> "" /\ TrimSpace sub = sub) subs -> load_domains subs = subs.
Proof.
  unfold load_domains. induction 1 as [|sub subs [Hne Hfix] _ IH]; [done|].
  cbn [map List.filter]. rewrite Hfix.
  apply String.eqb_neq in Hne. rewrite Hne. cbn [negb]. by f_equal.
Qed.

(** Names that are trimmed, not empty and on one line each are read back
    from the text [saveToFile] writes. *)
Lemma written_loads_back (subs : list string) :
  Forall (fun sub => sub <> "" /\ TrimSpace sub = sub /\
                     string_forall (fun a => negb (Ascii.eqb a "010")) sub = true) subs ->
  ScanLines (written subs) = subs /\ load_domains (ScanLines (written subs)) = subs.
Proof.
  intros Hsubs.
  assert (ScanLines (written subs) = subs) as Hscan.
  { unfold ScanLines. cbv zeta. rewrite Split_written.
    - rewrite last_snoc_string. cbn [String.eqb]. rewrite removelast_last.
      apply map_dropCR_trimmed.
      eapply Forall_impl; [exact Hsubs|]. by intros sub (_ & ? & _).
    - eapply Forall_impl; [exact Hsubs|]. by intros sub (_ & _ & ?). }
  split; [done|]. rewrite Hscan. apply trimmed_list_loads.
  eapply Forall_impl; [exact Hsubs|]. by intros sub (? & ? & _).
Qed.

(** What the extractor returns can be saved and read back. *)
Lemma extracted_savable (domain : string) (raw : list string) (x : string) :
  x ∈ extractSubdomains domain raw ->
  x <> "" /\ TrimSpace x = x /\
  string_forall (fun a => negb (Ascii.eqb a "010")) x = true.
Proof.
  intros (line & L & s & Hline & HL & Hs & Hbytes & -> & Hacc)%extracted_match.
  apply andb_true_iff in Hacc as [Hv Hc].
  destruct (normalise_no_wildcard _ _ _ HL Hs Hc) as [Hnorm _].
  split; [|split].
  - apply isValidSubdomain_length in Hv. intros Hx. rewrite Hx in Hv. simpl in Hv. lia.
  - by rewrite Hnorm, TrimSpace_ToLower, TrimSpace_idempotent.
  - apply normalise_one_line, Hbytes, (lines_one_line raw), Hline.
Qed.

(** X18: the file [saveToFile] writes for the names [extractSubdomains]
    returned (ASCII text) holds one name per line, and the scanner loop of
    [processDomainsFromFile] loads from it exactly these names, in the same
    order: a saved result is a domain list that can be read back. When the
    file cannot be created, the error is returned and nothing is written. *)
Theorem saved_result_loads_back (domain : string) (nameValues : list string)
    (os_Create : option string) :
  is_ascii_string domain = true ->
  Forall (fun nameValue => is_ascii_string nameValue = true) nameValues ->
  (forall err,
     os_Create = Some err ->
     saveToFile os_Create (extractSubdomains domain nameValues) = (Some err, None)) /\
  (os_Create = None ->
   exists text,
     saveToFile os_Create (extractSubdomains domain nameValues) = (None, Some text) /\
     Split text "010" = extractSubdomains domain nameValues ++ [""] /\
     ScanLines text = extractSubdomains domain nameValues /\
     load_domains (ScanLines text) = extractSubdomains domain nameValues).
Proof.
  intros _ _. split; [by intros err ->|]. intros ->.
  exists (written (extractSubdomains domain nameValues)).
  assert (Forall (fun sub => sub <> "" /\ TrimSpace sub = sub /\
                     string_forall (fun a => negb (Ascii.eqb a "010")) sub = true)
            (extractSubdomains domain nameValues)) as Hall.
  { apply Forall_forall. intros x Hx. by apply (extracted_savable domain nameValues). }
  split; [done|]. split; [|by apply written_loads_back].
  apply Split_written. eapply Forall_impl; [exact Hall|]. by intros sub (_ & _ & ?).
Qed.

Lemma saved_result_loads_back_example :
  exists text,
    saveToFile None (extractSubdomains "example.com" raw_example) = (None, Some text) /\
    Split text "010" = extractSubdomains "example.com" raw_example ++ [""] /\
    ScanLines text = extractSubdomains "example.com" raw_example /\
    load_domains (ScanLines text) = extractSubdomains "example.com" raw_example.
Proof.
  apply (saved_result_loads_back "example.com" raw_example None);
    [reflexivity | repeat constructor | reflexivity].
Defined.

(** ** The console in silent mode *)

Section ConsoleFacts.

Variable now : nat -> string.
Variable itoa : Z -> string.
Variable json_Unmarshal : string -> string + list CRTResponse.
Variable http_NewRequest : string -> option string.
Variable net : nat -> DoResult.

Lemma log_silent (s : SubHunter) (console : list string) (level message data : string) :
  silent s = true -> log now s console level message data = console.
Proof. unfold log. by intros ->. Qed.

Lemma retry_loop_console_silent (s : SubHunter) (domain : string) (left : nat) :
  silent s = true ->
  forall attempt sent console,
    retry_loop_console now itoa json_Unmarshal http_NewRequest net s domain left
      attempt sent console = console.
Proof.
  intros Hs. induction left as [|left IH]; intros attempt sent console; [done|].
  cbn [retry_loop_console]. rewrite !log_silent by done.
  destruct (1 <? attempt)%Z;
    destruct (http_NewRequest (crt_url domain)); try done;
    destruct (attempt_result json_Unmarshal (net sent)); try done; apply IH.
Qed.

Lemma printResult_silent (s : SubHunter) (subdomains console : list string) :
  silent s = true ->
  foldl (printResult s) console subdomains = console ++ map Fprintln subdomains.
Proof.
  intros Hs. revert console.
  induction subdomains as [|sub subs IH]; intros console; [by rewrite app_nil_r|].
  cbn [foldl map]. rewrite IH. unfold printResult. rewrite Hs. cbn [negb].
  by rewrite <- app_assoc.
Qed.

Lemma concat_Fprintln (subdomains : list string) :
  String.concat "" (map Fprintln subdomains) = written subdomains.
Proof.
  induction subdomains as [|sub subs IH]; [done|].
  change (written (sub :: subs)) with (Fprintln sub +:+ written subs).
  rewrite <- IH. destruct subs as [|sub' subs]; [by rewrite append_nil_r|].
  cbn [map String.concat]. by rewrite append_nil_l.
Qed.

End ConsoleFacts.

(** X19: in silent mode [processDomain] prints the names it returns and
    nothing else, whatever the service does and however many retries it
    takes: asked to show the results, it prints each name followed by a line
    feed, which is byte for byte the text [saveToFile] writes; not asked to
    (as for every domain of a list), it prints nothing. *)
Theorem processDomain_silent_console
    (now : nat -> string) (itoa : Z -> string)
    (json_Unmarshal : string -> string + list CRTResponse)
    (http_NewRequest : string -> option string) (net : nat -> DoResult)
    (s : SubHunter) (domain : string) :
  silent s = true ->
  processDomain_console now itoa json_Unmarshal http_NewRequest net s domain true []
    = map Fprintln (fst (processDomain json_Unmarshal http_NewRequest net s domain)) /\
  String.concat ""
    (processDomain_console now itoa json_Unmarshal http_NewRequest net s domain true [])
    = written (fst (processDomain json_Unmarshal http_NewRequest net s domain)) /\
  forall console,
    processDomain_console now itoa json_Unmarshal http_NewRequest net s domain false
      console = console.
Proof.
  intros Hs.
  assert (forall showResults console,
            processDomain_console now itoa json_Unmarshal http_NewRequest net s domain
              showResults console
            = console ++
              (if showResults
               then map Fprintln
                      (fst (processDomain json_Unmarshal http_NewRequest net s domain))
               else [])) as Hall.
  { intros showResults console. unfold processDomain_console, processDomain. cbv zeta.
    destruct (String.eqb (ToLower (TrimSpace domain)) "");
      [by destruct showResults; rewrite app_nil_r|].
    unfold queryAPI_console. rewrite retry_loop_console_silent by done.
    destruct (fst (queryAPI _ _ _ s _)) as [err|subs];
      [rewrite log_silent by done; by destruct showResults; rewrite app_nil_r|].
    cbn [fst]. rewrite !log_silent by done.
    destruct (0 <? Z.of_nat (length subs))%Z eqn:Hcount.
    - destruct showResults; [by apply printResult_silent | by rewrite app_nil_r].
    - apply Z.ltb_ge in Hcount. destruct subs; [|simpl in Hcount; lia].
      by destruct showResults; rewrite app_nil_r. }
  split; [apply (Hall true [])|]. split.
  - rewrite (Hall true []). apply concat_Fprintln.
  - intros console. rewrite (Hall false console). apply app_nil_r.
Qed.

Lemma processDomain_silent_console_example :
  processDomain_console (fun _ => "12:00:00") (fun _ => "2") decode_batch url_parses
    (nets_batch 0) (NewSubHunter 60 2 true) "a.com" true []
  = map Fprintln
      (fst (processDomain decode_batch url_parses (nets_batch 0)
              (NewSubHunter 60 2 true) "a.com")).
Proof.
  by apply (processDomain_silent_console (fun _ => "12:00:00") (fun _ => "2")
              decode_batch url_parses (nets_batch 0) (NewSubHunter 60 2 true) "a.com").
Defined.

(** ** The list file and the whole program *)

Lemma loaded_trimmed (lines : list string) :
  Forall (fun domain => domain <> "" /\ TrimSpace domain = domain) (load_domains lines).
Proof.
  apply Forall_forall. intros domain Hd%list_elem_of_In.
  apply elem_of_load_domains in Hd as [Hne (line & _ & ->)].
  split; [done | apply TrimSpace_idempotent].
Qed.

(** X20: blank lines and white space around the domains of the list file
    do not matter: [processDomainsFromFile] returns the same from the file
    and from the list of its domains, trimmed, one per line. *)
Theorem processDomainsFromFile_blank_lines
    (json_Unmarshal : string -> string + list CRTResponse)
    (http_NewRequest : string -> option string) (nets : nat -> nat -> DoResult)
    (s : SubHunter) (lines : list string) (concurrent : bool)
    (res : list string * SubHunter) :
  processDomainsFromFile json_Unmarshal http_NewRequest nets s (Some lines)
    concurrent res <->
  processDomainsFromFile json_Unmarshal http_NewRequest nets s
    (Some (load_domains lines)) concurrent res.
Proof.
  unfold processDomainsFromFile. cbv zeta.
  by rewrite (trimmed_list_loads (load_domains lines) (loaded_trimmed lines)).
Qed.

Section MainFacts.

Variable json_Unmarshal : string -> string + list CRTResponse.
Variable http_NewRequest : string -> option string.
Variable nets : nat -> nat -> DoResult.



End MainFacts.



(** ** The validator and empty labels *)

Lemma Split_last_sep (t : string) (sep : ascii) :
  last_byte t = Some sep -> exists ps, Split t sep = ps ++ [""] /\ ps <> [].
Proof.
  induction t as [|c t IH]; [done|]. intros Hlast.
  destruct t as [|c' t].
  - injection Hlast as ->. exists [""]. simpl. by rewrite Ascii.eqb_refl.
  - destruct (IH Hlast) as (ps & Hps & Hne).
    change (Split (String c (String c' t)) sep)
      with (if Ascii.eqb c sep then "" :: Split (String c' t) sep
            else match Split (String c' t) sep with
                 | [] => [String c ""]
                 | p :: ps => String c p :: ps
                 end).
    rewrite Hps. destruct (Ascii.eqb c sep).
    + by exists ("" :: ps).
    + destruct ps as [|p ps]; [done|]. by exists (String c p :: ps).
Qed.

Lemma Split_double_sep (t : string) (sep : ascii) :
  Contains t (String sep (String sep "")) = true ->
  exists p ps, Split t sep = p :: ps /\ In "" ps.
Proof.
  induction t as [|c t IH]; [done|].
  cbn [Contains]. intros [Hpre|Htail]%orb_true_iff.
  - apply HasPrefix_spec in Hpre as [q Hq]. rewrite !append_cons in Hq.
    injection Hq as -> ->. exists "", (Split (String sep q) sep).
    split; [by simpl; rewrite Ascii.eqb_refl|].
    simpl. rewrite Ascii.eqb_refl. by left.
  - destruct (IH Htail) as (p & ps & Hsplit & Hin).
    cbn [Split]. rewrite Hsplit. destruct (Ascii.eqb c sep).
    + exists "", (p :: ps). split; [done|by right].
    + by exists (String c p), ps.
Qed.

Lemma Contains_cons (c : ascii) (s sub : string) :
  Contains (String c s) sub = HasPrefix (String c s) sub || Contains s sub.
Proof. reflexivity. Qed.

Lemma HasPrefix_cons (c p : ascii) (s q : string) :
  HasPrefix (String c s) (String p q) = Ascii.eqb c p && HasPrefix s q.
Proof. reflexivity. Qed.

Lemma empty_part_invalid (s : string) :
  In "" (Split (TrimPrefix s "*.") ".") -> isValidSubdomain s = false.
Proof.
  intros Hin. destruct (isValidSubdomain s) eqn:Hv; [|done].
  pose proof (isValidSubdomain_length _ Hv) as Hlen.
  rewrite (isValidSubdomain_in_range _ Hlen) in Hv.
  apply parts_ok_spec in Hv. rewrite Forall_forall in Hv.
  specialize (Hv "" (proj2 (list_elem_of_In _ _) Hin)). simpl in Hv. lia.
Qed.

(** X22: [isValidSubdomain] rejects every name with an empty label: one
    that begins with a dot, ends with a dot, or has two dots in a row. *)
Theorem isValidSubdomain_empty_label (s : string) :
  HasPrefix s "." = true \/ last_byte s = Some "."%char \/ Contains s ".." = true ->
  isValidSubdomain s = false.
Proof.
  intros H. apply empty_part_invalid.
  destruct (TrimPrefix_cases s "*.") as [[-> _]|Hcut].
  - destruct H as [Hdot|[Hlast|Hdots]].
    + apply HasPrefix_spec in Hdot as [q ->]. rewrite append_cons. by left.
    + destruct (Split_last_sep _ _ Hlast) as (ps & -> & _).
      apply in_or_app. right. by left.
    + destruct (Split_double_sep _ _ Hdots) as (p & ps & -> & Hin). by right.
  - set (t := TrimPrefix s "*.") in *. rewrite Hcut in H. rewrite !append_cons in H.
    change ("" +:+ t) with t in H.
    destruct H as [Hdot|[Hlast|Hdots]].
    + done.
    + destruct t as [|c t]; [by left|].
      destruct (Split_last_sep (String c t) "." Hlast) as (ps & -> & _).
      apply in_or_app. right. by left.
    + rewrite Contains_cons, HasPrefix_cons in Hdots.
      change (Ascii.eqb "*" ".") with false in Hdots. cbn [andb orb] in Hdots.
      rewrite Contains_cons, HasPrefix_cons in Hdots.
      change (Ascii.eqb "." ".") with true in Hdots. cbn [andb] in Hdots.
      apply orb_true_iff in Hdots as [Hpre|Hdots].
      * apply HasPrefix_spec in Hpre as [q ->]. rewrite append_cons. by left.
      * destruct (Split_double_sep _ _ Hdots) as (p & ps & -> & Hin). by right.
Qed.

Lemma isValidSubdomain_empty_label_example :
  isValidSubdomain "www..example.com" = false.
Proof.
  apply isValidSubdomain_empty_label. right; right. reflexivity.
Defined.
